(** * backend/utils.py: text codec, response normalizers, promptflow adapter

    A shallow embedding of [src/backend/utils.py] and of the parts of the
    Python standard library it calls ([urllib.parse.quote], [unquote],
    [json.dumps]), followed by the properties of the module.

    Python values are dynamically typed; the embedding keeps that: a [str]
    is a sequence of code points, a JSON-like value is a [pyval], and every
    operation that can raise returns a [res]. *)

From Stdlib Require Import ZArith List Bool Lia String Ascii DecimalString.
Import ListNotations.
Open Scope Z_scope.

(* ===================================================================== *)
(** ** Python strings and exceptions *)
(* ===================================================================== *)

(** A Python [str] is a sequence of code points; [ord] of each is the [Z]. *)
Abbreviation str := (list Z) (only parsing).

(** The code points a [str] can hold: 0 .. 0x10FFFF, surrogates included. *)
Definition is_code_point (c : Z) : Prop := 0 <= c <= 0x10FFFF.

Definition is_surrogate (c : Z) : bool := (0xD800 <=? c) && (c <=? 0xDFFF).

(** Unicode scalar values: code points that are not surrogates.  These are
    the characters UTF-8 can encode. *)
Definition is_scalar (c : Z) : Prop :=
  is_code_point c /\ is_surrogate c = false.

(** Text: a [str] of scalar values (no lone surrogate). *)
Definition is_text (s : str) : Prop := Forall is_scalar s.

(** A source-code string literal (ASCII) as a [str]. *)
Definition lit (s : string) : str :=
  map (fun a => Z.of_N (N_of_ascii a)) (list_ascii_of_string s).

Fixpoint str_eqb (a b : str) : bool :=
  match a, b with
  | [], [] => true
  | x :: a', y :: b' => (x =? y) && str_eqb a' b'
  | _, _ => false
  end.

(** The exceptions the modelled code can raise. *)
Inductive exn : Set :=
| TypeError
| KeyError
| AttributeError
| IndexError
| UnicodeEncodeError.

(** The outcome of a call: a value, or a raised exception. *)
Inductive res (A : Type) : Type :=
| Ok (a : A)
| Raise (e : exn).
Arguments Ok {A} a.
Arguments Raise {A} e.

Definition bind {A B : Type} (r : res A) (k : A -> res B) : res B :=
  match r with
  | Ok a => k a
  | Raise e => Raise e
  end.

Notation "x <- r ;; k" := (bind r (fun x => k))
  (at level 61, r at next level, right associativity).

(* ===================================================================== *)
(** ** UTF-8, as [str.encode('utf-8', 'strict')] and
       [bytes.decode('utf-8', 'replace')] *)
(* ===================================================================== *)

(** Bytes are [Z] in 0 .. 255. *)
Definition is_byte (b : Z) : Prop := 0 <= b <= 255.

(** One code point to its UTF-8 bytes; [None] is the strict error handler
    refusing a surrogate. *)
Definition utf8_encode_char (c : Z) : option (list Z) :=
  if c <? 0x80 then Some [c]
  else if c <? 0x800 then Some [0xC0 + c / 64; 0x80 + c mod 64]
  else if c <? 0x10000 then
    if is_surrogate c then None
    else Some [0xE0 + c / 4096; 0x80 + (c / 64) mod 64; 0x80 + c mod 64]
  else Some [0xF0 + c / 262144; 0x80 + (c / 4096) mod 64;
             0x80 + (c / 64) mod 64; 0x80 + c mod 64].

Fixpoint utf8_encode (s : str) : option (list Z) :=
  match s with
  | [] => Some []
  | c :: s' =>
      match utf8_encode_char c, utf8_encode s' with
      | Some bs, Some bs' => Some (bs ++ bs')
      | _, _ => None
      end
  end.

Definition is_continuation_byte (b : Z) : bool := (0x80 <=? b) && (b <? 0xC0).

(** U+FFFD, what the 'replace' error handler writes for each error. *)
Definition REPLACEMENT : Z := 0xFFFD.

(** The decoder with the 'replace' handler.  Each error replaces the bytes
    of the ill-formed prefix (the bytes read before the one that broke the
    sequence, at least one) and decoding resumes right after them; a
    sequence cut by the end of the data is one error. *)
Fixpoint utf8_decode_replace (bs : list Z) : str :=
  match bs with
  | [] => []
  | b0 :: r0 =>
      if b0 <? 0x80 then b0 :: utf8_decode_replace r0
      else if b0 <? 0xC2 then
        (* continuation byte, or 0xC0/0xC1: invalid start byte *)
        REPLACEMENT :: utf8_decode_replace r0
      else if b0 <? 0xE0 then
        match r0 with
        | [] => [REPLACEMENT]
        | b1 :: r1 =>
            if is_continuation_byte b1
            then (b0 * 64 + b1 - 0x3080) :: utf8_decode_replace r1
            else REPLACEMENT :: utf8_decode_replace r0
        end
      else if b0 <? 0xF0 then
        match r0 with
        | [] => [REPLACEMENT]
        | b1 :: r1 =>
            if negb (is_continuation_byte b1)
               || (if b1 <? 0xA0 then b0 =? 0xE0 else b0 =? 0xED)
            then REPLACEMENT :: utf8_decode_replace r0
            else
              match r1 with
              | [] => [REPLACEMENT]
              | b2 :: r2 =>
                  if is_continuation_byte b2
                  then (b0 * 4096 + b1 * 64 + b2 - 0xE2080)
                         :: utf8_decode_replace r2
                  else REPLACEMENT :: utf8_decode_replace r1
              end
        end
      else if b0 <? 0xF5 then
        match r0 with
        | [] => [REPLACEMENT]
        | b1 :: r1 =>
            if negb (is_continuation_byte b1)
               || (if b1 <? 0x90 then b0 =? 0xF0 else b0 =? 0xF4)
            then REPLACEMENT :: utf8_decode_replace r0
            else
              match r1 with
              | [] => [REPLACEMENT]
              | b2 :: r2 =>
                  if negb (is_continuation_byte b2)
                  then REPLACEMENT :: utf8_decode_replace r1
                  else
                    match r2 with
                    | [] => [REPLACEMENT]
                    | b3 :: r3 =>
                        if is_continuation_byte b3
                        then (b0 * 262144 + b1 * 4096 + b2 * 64 + b3
                              - 0x3C82080) :: utf8_decode_replace r3
                        else REPLACEMENT :: utf8_decode_replace r2
                    end
              end
        end
      else REPLACEMENT :: utf8_decode_replace r0
  end.

(* ===================================================================== *)
(** ** urllib.parse: quote and unquote *)
(* ===================================================================== *)

(** [_ALWAYS_SAFE]: letters, digits and [_.-~]. *)
Definition ALWAYS_SAFE (b : Z) : bool :=
  ((65 <=? b) && (b <=? 90)) || ((97 <=? b) && (b <=? 122))
  || ((48 <=? b) && (b <=? 57))
  || (b =? 95) || (b =? 46) || (b =? 45) || (b =? 126).

(** One upper-case hexadecimal digit, as ['{:02X}'.format] writes it. *)
Definition hex_upper (n : Z) : Z := if n <? 10 then 48 + n else 55 + n.

(** [_Quoter(safe).__missing__] with [safe = b'']. *)
Definition quoter (b : Z) : str :=
  if ALWAYS_SAFE b then [b] else [37; hex_upper (b / 16); hex_upper (b mod 16)].

(** [quote_from_bytes(bs, safe='')]. *)
Definition quote_from_bytes (bs : list Z) : str :=
  match bs with
  | [] => []
  | _ => if forallb ALWAYS_SAFE bs then bs else flat_map quoter bs
  end.

(** [quote(string, safe='')] on a [str]. *)
Definition quote (s : str) : res str :=
  match s with
  | [] => Ok s
  | _ =>
      match utf8_encode s with
      | Some bs => Ok (quote_from_bytes bs)
      | None => Raise UnicodeEncodeError
      end
  end.

(** [_hexdig = '0123456789ABCDEFabcdef'] and the value of a digit. *)
Definition is_hexdig (c : Z) : bool :=
  ((48 <=? c) && (c <=? 57)) || ((65 <=? c) && (c <=? 70))
  || ((97 <=? c) && (c <=? 102)).

Definition hexval (c : Z) : Z :=
  if c <=? 57 then c - 48 else if c <=? 70 then c - 55 else c - 87.

(** [bytes.split(b'%')]: never empty. *)
Fixpoint split_percent (s : list Z) : list (list Z) :=
  match s with
  | [] => [[]]
  | c :: s' =>
      if c =? 37 then [] :: split_percent s'
      else
        match split_percent s' with
        | item :: items => (c :: item) :: items
        | [] => [[c]]
        end
  end.

(** The body of the loop over [bits[1:]]: [_hextobyte[item[:2]]] followed
    by [item[2:]], or on [KeyError] the ['%'] put back before the item. *)
Definition unquote_item (item : list Z) : list Z :=
  match item with
  | h1 :: h2 :: rest =>
      if is_hexdig h1 && is_hexdig h2
      then (hexval h1 * 16 + hexval h2) :: rest
      else 37 :: item
  | _ => 37 :: item
  end.

(** [unquote_to_bytes] on an ASCII [str] (whose UTF-8 bytes are its code
    points). *)
Definition unquote_to_bytes (s : list Z) : list Z :=
  match s with
  | [] => []
  | _ =>
      match split_percent s with
      | [] => s
      | [_] => s
      | first :: items => first ++ flat_map unquote_item items
      end
  end.

Definition is_ascii (c : Z) : bool := (0 <=? c) && (c <=? 0x7F).

(** [_asciire.split(string)]: the maximal runs of ASCII and of non-ASCII
    characters, in order; the flag tells which. *)
Fixpoint ascii_runs (s : str) : list (bool * str) :=
  match s with
  | [] => []
  | c :: s' =>
      match ascii_runs s' with
      | (a, run) :: runs =>
          if Bool.eqb a (is_ascii c) then (a, c :: run) :: runs
          else (is_ascii c, [c]) :: (a, run) :: runs
      | [] => [(is_ascii c, [c])]
      end
  end.

Definition unquote_run (r : bool * str) : str :=
  if fst r then utf8_decode_replace (unquote_to_bytes (snd r)) else snd r.

(** ['%' in string]. *)
Definition has_percent (s : str) : bool := existsb (Z.eqb 37) s.

(** [unquote(string)] on a [str], with the default encoding 'utf-8' and
    errors 'replace'. *)
Definition unquote (s : str) : str :=
  if negb (has_percent s) then s
  else flat_map unquote_run (ascii_runs s).

(* ===================================================================== *)
(** ** Python values *)
(* ===================================================================== *)

(** The values the module handles: JSON-like data (dictionaries keep
    insertion order and have [str] keys), dataclass instances, which the
    module's [JSONEncoder] serializes, and other objects, of which only the
    class name matters.  [PObj cls] is an instance of the class [cls] that
    is none of the other kinds: not iterable, not a container, not a class
    object, something [copy.deepcopy] copies and [json] refuses.  Floats
    are not modelled, and neither are [bytes] and [bytearray]: they occur
    neither in parsed JSON nor in the objects of the chat-completion
    client, which is all the module is given.  ([quote] and [unquote]
    accept [bytes]; a property of the codec on what is not text is
    therefore a property of the values below, not of bytes.) *)
#[warnings="-register-all"]
Inductive pyval : Type :=
| PNone
| PBool (b : bool)
| PInt (z : Z)
| PStr (s : str)
| PList (l : list pyval)
| PDict (d : list (str * pyval))
| PData (cls : str) (fields : list (str * pyval))
| PObj (cls : str).

(** [bool(v)]. *)
Definition truthy (v : pyval) : bool :=
  match v with
  | PNone => false
  | PBool b => b
  | PInt z => negb (z =? 0)
  | PStr s => match s with [] => false | _ => true end
  | PList l => match l with [] => false | _ => true end
  | PDict d => match d with [] => false | _ => true end
  | PData _ _ => true
  | PObj _ => true
  end.

(** [v == k] for a [str] k. *)
Definition py_eq_str (v : pyval) (k : str) : bool :=
  match v with
  | PStr s => str_eqb s k
  | _ => false
  end.

Fixpoint dict_get (d : list (str * pyval)) (k : str) : option pyval :=
  match d with
  | [] => None
  | (k', v) :: d' => if str_eqb k' k then Some v else dict_get d' k
  end.

(** [d[k] = v]: the value of an existing key is replaced where it stands,
    a new key goes last. *)
Fixpoint dict_set (d : list (str * pyval)) (k : str) (v : pyval)
  : list (str * pyval) :=
  match d with
  | [] => [(k, v)]
  | (k', v') :: d' =>
      if str_eqb k' k then (k', v) :: d' else (k', v') :: dict_set d' k v
  end.

Definition dict_has (d : list (str * pyval)) (k : str) : bool :=
  match dict_get d k with Some _ => true | None => false end.

(** [v[k]] for a [str] k. *)
Definition py_getitem (v : pyval) (k : str) : res pyval :=
  match v with
  | PDict d =>
      match dict_get d k with
      | Some x => Ok x
      | None => Raise KeyError
      end
  | _ => Raise TypeError
  end.

Fixpoint is_prefix (p s : str) : bool :=
  match p, s with
  | [], _ => true
  | x :: p', y :: s' => (x =? y) && is_prefix p' s'
  | _ :: _, [] => false
  end.

Fixpoint is_substring (p s : str) : bool :=
  is_prefix p s || match s with [] => false | _ :: s' => is_substring p s' end.

(** [k in v] for a [str] k. *)
Definition py_contains (k : str) (v : pyval) : res bool :=
  match v with
  | PDict d => Ok (dict_has d k)
  | PList l => Ok (existsb (fun x => py_eq_str x k) l)
  | PStr s => Ok (is_substring k s)
  | _ => Raise TypeError
  end.

(** [for x in v]. *)
Definition py_iter (v : pyval) : res (list pyval) :=
  match v with
  | PList l => Ok l
  | PStr s => Ok (map (fun c => PStr [c]) s)
  | PDict d => Ok (map (fun kv => PStr (fst kv)) d)
  | _ => Raise TypeError
  end.

(** [sep.join(parts)]. *)
Fixpoint join (sep : str) (parts : list str) : str :=
  match parts with
  | [] => []
  | [p] => p
  | p :: ps => p ++ sep ++ join sep ps
  end.

(* ===================================================================== *)
(** ** json.dumps *)
(* ===================================================================== *)

Definition hex_lower (n : Z) : Z := if n <? 10 then 48 + n else 87 + n.

(** ['\\u{0:04x}'.format(n)]. *)
Definition u_escape (n : Z) : str :=
  [92; 117; hex_lower (n / 4096); hex_lower ((n / 256) mod 16);
   hex_lower ((n / 16) mod 16); hex_lower (n mod 16)].

(** The replacement of one character by [py_encode_basestring_ascii]. *)
Definition escape_ascii (c : Z) : str :=
  if c =? 92 then [92; 92]
  else if c =? 34 then [92; 34]
  else if (32 <=? c) && (c <=? 126) then [c]
  else if c =? 8 then [92; 98]
  else if c =? 12 then [92; 102]
  else if c =? 10 then [92; 110]
  else if c =? 13 then [92; 114]
  else if c =? 9 then [92; 116]
  else if c <? 0x10000 then u_escape c
  else
    let n := c - 0x10000 in
    u_escape (Z.lor 0xD800 (Z.land (Z.shiftr n 10) 0x3FF))
    ++ u_escape (Z.lor 0xDC00 (Z.land n 0x3FF)).

Definition encode_basestring_ascii (s : str) : str :=
  [34] ++ flat_map escape_ascii s ++ [34].

(** [int.__repr__]. *)
Definition repr_int (z : Z) : str :=
  lit (DecimalString.NilZero.string_of_int (Z.to_int z)).

(** The outcome of a serialization: the text, or the [TypeError] "Object of
    type <cls> is not JSON serializable". *)
Inductive json_res (A : Type) : Type :=
| JOk (a : A)
| JNotSerializable (cls : str).
Arguments JOk {A} a.
Arguments JNotSerializable {A} cls.

Definition jbind {A B : Type} (r : json_res A) (k : A -> json_res B)
  : json_res B :=
  match r with
  | JOk a => k a
  | JNotSerializable cls => JNotSerializable cls
  end.

(** [json.dumps(v)] with the default separators and [ensure_ascii];
    [dataclasses = true] is [cls=JSONEncoder], the module's encoder.  Its
    [default] answers a dataclass instance with [dataclasses.asdict(o)]:
    the dictionary of the fields, in which the dataclass instances inside
    the field values are converted in the same way and every other value
    is deep-copied; the encoder then serializes that dictionary.  A copy
    serializes as its original does, so the fields are serialized here as
    they stand, the instances among them by [default] again.  On failure
    the model keeps the class of the object [json] refuses, which is the
    message of the [TypeError] for the objects of [PObj]; the two failures
    of [asdict] itself (a dataclass class given instead of an instance, a
    field value that cannot be copied) have messages of their own and are
    no values of [pyval]. *)
Fixpoint json_dumps (dataclasses : bool) (v : pyval) : json_res str :=
  let members :=
    fix members (d : list (str * pyval)) : json_res (list str) :=
      match d with
      | [] => JOk []
      | (k, x) :: d' =>
          jbind (json_dumps dataclasses x) (fun s =>
          jbind (members d') (fun ss =>
          JOk ((encode_basestring_ascii k ++ [58; 32] ++ s) :: ss)))
      end in
  match v with
  | PNone => JOk (lit "null")
  | PBool true => JOk (lit "true")
  | PBool false => JOk (lit "false")
  | PInt z => JOk (repr_int z)
  | PStr s => JOk (encode_basestring_ascii s)
  | PList l =>
      jbind
        ((fix elements (l : list pyval) : json_res (list str) :=
            match l with
            | [] => JOk []
            | x :: l' =>
                jbind (json_dumps dataclasses x) (fun s =>
                jbind (elements l') (fun ss => JOk (s :: ss)))
            end) l)
        (fun ss => JOk ([91] ++ join [44; 32] ss ++ [93]))
  | PDict d =>
      jbind (members d) (fun ss => JOk ([123] ++ join [44; 32] ss ++ [125]))
  | PData cls fields =>
      if dataclasses
      then jbind (members fields)
             (fun ss => JOk ([123] ++ join [44; 32] ss ++ [125]))
      else JNotSerializable cls
  | PObj cls => JNotSerializable cls
  end.

(** [json.dumps(v)] as a call that may raise. *)
Definition dumps (v : pyval) : res str :=
  match json_dumps false v with
  | JOk s => Ok s
  | JNotSerializable _ => Raise TypeError
  end.

(** [str(error)] of the [TypeError] of the encoder. *)
Definition not_serializable_message (cls : str) : str :=
  lit "Object of type " ++ cls ++ lit " is not JSON serializable".

(* ===================================================================== *)
(** ** backend/utils.py *)
(* ===================================================================== *)

(** *** Text codec *)

(** [quote(text, safe="")].  For what is not a [str], [quote] hands the
    value to [quote_from_bytes], which raises [TypeError] unless it is
    [bytes] or a [bytearray]; [pyval] has no such values, so every value
    other than a [str] is refused. *)
Definition encode_text_for_ai_search (text : pyval) : res str :=
  match text with
  | PStr s => quote s
  | _ => Raise TypeError
  end.

(** [unquote(encoded_text)].  [bytes] apart (they are decoded, and are no
    values of [pyval]), [unquote] tests ['%' in string] first and then
    touches [string.split] or hands the value to a regular expression, so
    a value that is not a [str] raises in one of the three places:
    [TypeError] where [in] is not defined or the regular expression gets
    no string, [AttributeError] where there is no [split]. *)
Definition decode_text_from_ai_search (encoded_text : pyval) : res str :=
  match encoded_text with
  | PStr s => Ok (unquote s)
  | _ =>
      has <- py_contains [37] encoded_text ;;
      if has : bool then Raise TypeError else Raise AttributeError
  end.

(** *** NDJSON stream formatter *)

(** The asynchronous iterator [r], as far as the formatter sees it: it ends,
    yields an event and goes on, raises an [Exception] whose [str] is
    [error], or raises an exception that is not an [Exception]
    ([asyncio.CancelledError] when the request is cancelled,
    [KeyboardInterrupt], [SystemExit]). *)
Inductive async_iter : Type :=
| AEnd
| AYield (event : pyval) (rest : async_iter)
| ARaise (error : str)
| ARaiseBase (error : str).

(** What an asynchronous generator does for its consumer: the strings it
    yields, then it ends, or an exception comes out of it ([raised] is its
    message). *)
Record generated : Type := mkGenerated {
  yielded : list str;
  raised : option str
}.

(** The body of the [except Exception as error] clause. *)
Definition ndjson_handler (error : str) : generated :=
  match json_dumps false (PDict [(lit "error", PStr error)]) with
  | JOk s => mkGenerated [s] None
  | JNotSerializable cls => mkGenerated [] (Some (not_serializable_message cls))
  end.

Fixpoint format_as_ndjson (r : async_iter) : generated :=
  match r with
  | AEnd => mkGenerated [] None
  | AYield event rest =>
      match json_dumps true event with
      | JOk s =>
          let g := format_as_ndjson rest in
          mkGenerated ((s ++ [10]) :: yielded g) (raised g)
      | JNotSerializable cls => ndjson_handler (not_serializable_message cls)
      end
  | ARaise error => ndjson_handler error
  | ARaiseBase error => mkGenerated [] (Some error)
  end.

(** *** Group filter *)

(** [[f(x) for x in l]] where [f] may raise. *)
Fixpoint map_res {A B : Type} (f : A -> res B) (l : list A) : res (list B) :=
  match l with
  | [] => Ok []
  | x :: l' => y <- f x ;; ys <- map_res f l' ;; Ok (y :: ys)
  end.

(** [sep.join(items)]: every item has to be a [str]. *)
Definition py_join (sep : str) (items : list pyval) : res str :=
  parts <- map_res (fun v => match v with
                             | PStr s => Ok s
                             | _ => Raise TypeError
                             end) items ;;
  Ok (join sep parts).

(** How an f-string renders the value of [os.environ.get(name)]. *)
Definition format_environ (v : option str) : str :=
  match v with
  | Some s => s
  | None => lit "None"
  end.

Section GroupFilter.

(** [os.environ.get("AZURE_SEARCH_PERMITTED_GROUPS_COLUMN")]: [None] when
    the variable is not set. *)
Variable AZURE_SEARCH_PERMITTED_GROUPS_COLUMN : option str.

(** The outcome of [fetchUserGroups(userToken)], the pages of the directory
    service put together; the call never raises. *)
Variable fetchUserGroups : str -> list pyval.

Definition generateFilterString (userToken : str) : res str :=
  let userGroups := fetchUserGroups userToken in
  ids <- map_res (fun obj => py_getitem obj (lit "id")) userGroups ;;
  group_ids <- py_join (lit ", ") ids ;;
  Ok (format_environ AZURE_SEARCH_PERMITTED_GROUPS_COLUMN
      ++ lit "/any(g:search.in(g, '" ++ group_ids ++ lit "'))").

End GroupFilter.

(** *** Response normalizers *)

(** The objects of the chat-completion client.  [role] and [content] are
    declared attributes (possibly [None]); [context] is there on some
    messages only, which is what [hasattr] asks. *)
Record Message : Type := mkMessage {
  msg_role : pyval;
  msg_content : pyval;
  msg_context : option pyval
}.

Record Choice : Type := mkChoice { message : option Message }.

Record ChatCompletion : Type := mkChatCompletion {
  cc_id : pyval;
  cc_model : pyval;
  cc_created : pyval;
  cc_object : pyval;
  cc_choices : list Choice
}.

Record ChunkChoice : Type := mkChunkChoice { delta : option Message }.

Record ChatCompletionChunk : Type := mkChatCompletionChunk {
  ck_id : pyval;
  ck_model : pyval;
  ck_created : pyval;
  ck_object : pyval;
  ck_choices : list ChunkChoice
}.

(** The dictionary [response_obj] holding [messages]. *)
Definition envelope (id model created object : pyval) (messages : list pyval)
    (history_metadata apim_request_id : pyval) : pyval :=
  PDict [(lit "id", id);
         (lit "model", model);
         (lit "created", created);
         (lit "object", object);
         (lit "choices", PList [PDict [(lit "messages", PList messages)]]);
         (lit "history_metadata", history_metadata);
         (lit "apim-request-id", apim_request_id)].

Definition py_setitem (v : pyval) (k : str) (x : pyval) : res pyval :=
  match v with
  | PDict d => Ok (PDict (dict_set d k x))
  | _ => Raise TypeError
  end.

(** [response_obj["choices"][0]["messages"].append(messageObj)]; the
    dictionary is updated in place, here the updated one is returned. *)
Definition append_message (response_obj messageObj : pyval) : res pyval :=
  choices <- py_getitem response_obj (lit "choices") ;;
  match choices with
  | PList (choice0 :: others) =>
      messages <- py_getitem choice0 (lit "messages") ;;
      match messages with
      | PList ms =>
          choice0' <- py_setitem choice0 (lit "messages")
                        (PList (ms ++ [messageObj])) ;;
          py_setitem response_obj (lit "choices") (PList (choice0' :: others))
      | _ => Raise AttributeError
      end
  | PList [] => Raise IndexError
  | _ => Raise TypeError
  end.

Definition tool_message (content : str) : pyval :=
  PDict [(lit "role", PStr (lit "tool")); (lit "content", PStr content)].

Definition assistant_message (content : str) : pyval :=
  PDict [(lit "role", PStr (lit "assistant")); (lit "content", PStr content)].

(** [hasattr(m, "context")] and [m.context]. *)
Definition hasattr_context (m : Message) : bool :=
  match msg_context m with Some _ => true | None => false end.

Definition getattr_context (m : Message) : res pyval :=
  match msg_context m with
  | Some context => Ok context
  | None => Raise AttributeError
  end.

Definition format_non_streaming_response (chatCompletion : ChatCompletion)
    (history_metadata apim_request_id : pyval) : res pyval :=
  let response_obj :=
    envelope (cc_id chatCompletion) (cc_model chatCompletion)
      (cc_created chatCompletion) (cc_object chatCompletion) []
      history_metadata apim_request_id in
  match cc_choices chatCompletion with
  | choice0 :: _ =>
      match message choice0 with
      | Some message =>
          response_obj <-
            (if hasattr_context message then
               context <- getattr_context message ;;
               serialized <- dumps context ;;
               decoded_context <- decode_text_from_ai_search (PStr serialized) ;;
               append_message response_obj (tool_message decoded_context)
             else Ok response_obj) ;;
          content <- decode_text_from_ai_search (msg_content message) ;;
          response_obj <-
            append_message response_obj (assistant_message content) ;;
          Ok response_obj
      | None => Ok (PDict [])
      end
  | [] => Ok (PDict [])
  end.

Definition format_stream_response (chatCompletionChunk : ChatCompletionChunk)
    (history_metadata apim_request_id : pyval) : res pyval :=
  let response_obj :=
    envelope (ck_id chatCompletionChunk) (ck_model chatCompletionChunk)
      (ck_created chatCompletionChunk) (ck_object chatCompletionChunk) []
      history_metadata apim_request_id in
  match ck_choices chatCompletionChunk with
  | choice0 :: _ =>
      match delta choice0 with
      | Some delta =>
          if hasattr_context delta then
            context <- getattr_context delta ;;
            serialized <- dumps context ;;
            decoded_context <- decode_text_from_ai_search (PStr serialized) ;;
            response_obj <-
              append_message response_obj (tool_message decoded_context) ;;
            Ok response_obj
          else if py_eq_str (msg_role delta) (lit "assistant")
                  && hasattr_context delta then
            context <- getattr_context delta ;;
            decoded <- decode_text_from_ai_search context ;;
            response_obj <-
              append_message response_obj
                (PDict [(lit "role", PStr (lit "assistant"));
                        (lit "context", PStr decoded)]) ;;
            Ok response_obj
          else if truthy (msg_content delta) then
            decoded <- decode_text_from_ai_search (msg_content delta) ;;
            response_obj <-
              append_message response_obj (assistant_message decoded) ;;
            Ok response_obj
          else Ok (PDict [])
      | None => Ok (PDict [])
      end
  | [] => Ok (PDict [])
  end.

(** The message returned when the promptflow call gave nothing. *)
Definition PF_NO_RESPONSE : str :=
  lit "No response received from promptflow endpoint. Increase PROMPTFLOW_RESPONSE_TIMEOUT parameter or check the promptflow endpoint.".

(** The [response_obj] of the promptflow formatter. *)
Definition pf_envelope (id history_metadata : pyval) (messages : list pyval)
  : pyval :=
  PDict [(lit "id", id);
         (lit "model", PStr []);
         (lit "created", PStr []);
         (lit "object", PStr []);
         (lit "history_metadata", history_metadata);
         (lit "choices", PList [PDict [(lit "messages", PList messages)]])].

(** The body of the [try] of [format_pf_non_streaming_response]. *)
Definition format_pf_try (chatCompletion history_metadata : pyval)
    (response_field_name citations_field_name : str) : res pyval :=
  let messages := [] in
  has_response <- py_contains response_field_name chatCompletion ;;
  messages <-
    (if has_response : bool then
       value <- py_getitem chatCompletion response_field_name ;;
       decoded_content <- decode_text_from_ai_search value ;;
       Ok (messages ++ [assistant_message decoded_content])
     else Ok messages) ;;
  has_citations <- py_contains citations_field_name chatCompletion ;;
  messages <-
    (if has_citations : bool then
       value <- py_getitem chatCompletion citations_field_name ;;
       serialized <- dumps value ;;
       decoded <- decode_text_from_ai_search (PStr serialized) ;;
       let citation_content := PDict [(lit "citations", PStr decoded)] in
       content <- dumps citation_content ;;
       Ok (messages ++ [tool_message content])
     else Ok messages) ;;
  id <- py_getitem chatCompletion (lit "id") ;;
  Ok (pf_envelope id history_metadata messages).

Definition format_pf_non_streaming_response
    (chatCompletion history_metadata : pyval)
    (response_field_name citations_field_name : str) (message_uuid : pyval)
  : res pyval :=
  match chatCompletion with
  | PNone => Ok (PDict [(lit "error", PStr PF_NO_RESPONSE)])
  | _ =>
      has_error <- py_contains (lit "error") chatCompletion ;;
      if has_error : bool then
        error <- py_getitem chatCompletion (lit "error") ;;
        Ok (PDict [(lit "error", error)])
      else
        match format_pf_try chatCompletion history_metadata
                response_field_name citations_field_name with
        | Ok response_obj => Ok response_obj
        | Raise _ => Ok (PDict [])
        end
  end.

(** *** Promptflow input adapter *)

Definition pf_turn (request_field_name response_field_name : str)
    (input output : str) : pyval :=
  PDict [(lit "inputs", PDict [(request_field_name, PStr input)]);
         (lit "outputs", PDict [(response_field_name, PStr output)])].

(** [output_json[-1]["outputs"][response_field_name] = value]. *)
Fixpoint set_last_output (output_json : list pyval) (response_field_name : str)
    (value : pyval) : res (list pyval) :=
  match output_json with
  | [] => Raise IndexError
  | [last] =>
      outputs <- py_getitem last (lit "outputs") ;;
      outputs' <- py_setitem outputs response_field_name value ;;
      last' <- py_setitem last (lit "outputs") outputs' ;;
      Ok [last']
  | turn :: later =>
      later' <- set_last_output later response_field_name value ;;
      Ok (turn :: later')
  end.

(** The [for message in input_json["messages"]] loop, [output_json] being
    the list built so far. *)
Fixpoint pf_loop (request_field_name response_field_name : str)
    (messages : list pyval) (output_json : list pyval) : res (list pyval) :=
  match messages with
  | [] => Ok output_json
  | message :: rest =>
      if truthy message then
        role <- py_getitem message (lit "role") ;;
        if py_eq_str role (lit "user") then
          content <- py_getitem message (lit "content") ;;
          encoded_content <- encode_text_for_ai_search content ;;
          let new_obj :=
            pf_turn request_field_name response_field_name encoded_content [] in
          pf_loop request_field_name response_field_name rest
            (output_json ++ [new_obj])
        else
          role <- py_getitem message (lit "role") ;;
          if py_eq_str role (lit "assistant")
             && (0 <? Z.of_nat (List.length output_json)) then
            content <- py_getitem message (lit "content") ;;
            decoded_content <- decode_text_from_ai_search content ;;
            output_json' <-
              set_last_output output_json response_field_name
                (PStr decoded_content) ;;
            pf_loop request_field_name response_field_name rest output_json'
          else pf_loop request_field_name response_field_name rest output_json
      else pf_loop request_field_name response_field_name rest output_json
  end.

Definition convert_to_pf_format (input_json : pyval)
    (request_field_name response_field_name : str) : res pyval :=
  messages_value <- py_getitem input_json (lit "messages") ;;
  messages <- py_iter messages_value ;;
  output_json <-
    pf_loop request_field_name response_field_name messages [] ;;
  Ok (PList output_json).

(* ===================================================================== *)
(** ** Auxiliary notions used to state the properties *)
(* ===================================================================== *)

(** A percent-escape sequence starts the text: ['%'] and two hexadecimal
    digits. *)
Definition escape_at_head (s : str) : bool :=
  match s with
  | c :: h1 :: h2 :: _ => (c =? 37) && is_hexdig h1 && is_hexdig h2
  | _ => false
  end.

(** The text contains a percent-escape sequence. *)
Fixpoint has_escape (s : str) : bool :=
  match s with
  | [] => false
  | _ :: s' => escape_at_head s || has_escape s'
  end.

(** [unquote_to_bytes] as one pass from left to right. *)
Fixpoint unquote_scan (s : list Z) : list Z :=
  match s with
  | [] => []
  | c :: s' =>
      if c =? 37 then
        match s' with
        | h1 :: h2 :: s'' =>
            if is_hexdig h1 && is_hexdig h2
            then (hexval h1 * 16 + hexval h2) :: unquote_scan s''
            else 37 :: unquote_scan s'
        | _ => 37 :: unquote_scan s'
        end
      else c :: unquote_scan s'
  end.

(** [d.keys()] and [k in m] on a returned object. *)
Definition py_keys (v : pyval) : list (list Z) :=
  match v with
  | PDict d => map fst d
  | _ => []
  end.

Definition has_key (m : pyval) (k : str) : bool :=
  match m with
  | PDict d => dict_has d k
  | _ => false
  end.

(** The messages of a returned envelope, [r["choices"][0]["messages"]];
    the empty object has none. *)
Definition messages_of (response : pyval) : list pyval :=
  match response with
  | PDict d =>
      match dict_get d (lit "choices") with
      | Some (PList (PDict choice0 :: _)) =>
          match dict_get choice0 (lit "messages") with
          | Some (PList ms) => ms
          | _ => []
          end
      | _ => []
      end
  | _ => []
  end.

(** The iterator that yields [events] and then behaves as [rest]. *)
Fixpoint yields (events : list pyval) (rest : async_iter) : async_iter :=
  match events with
  | [] => rest
  | event :: events' => AYield event (yields events' rest)
  end.

(** Whatever the iterator raises is an [Exception]. *)
Fixpoint raises_exceptions_only (r : async_iter) : bool :=
  match r with
  | AEnd => true
  | AYield _ rest => raises_exceptions_only rest
  | ARaise _ => true
  | ARaiseBase _ => false
  end.

(** The text of the line [{"error": "<message>"}]. *)
Definition error_line (message : str) : str :=
  [123] ++ encode_basestring_ascii (lit "error") ++ [58; 32]
  ++ encode_basestring_ascii message ++ [125].

(** The history of a conversation and the turns it amounts to, sentence by
    sentence: a user message opens a turn with the encoded content and an
    empty output; an assistant message sets the output of the last turn to
    the decoded content, or is dropped when there is no turn yet; empty
    entries and other roles change nothing.  A turn is the pair of its
    input and output texts. *)
Inductive pf_history : list pyval -> list (list Z * list Z) -> Prop :=
| pf_start : pf_history [] []
| pf_empty_entry (ms : list pyval) (ts : list (list Z * list Z)) (m : pyval) :
    pf_history ms ts -> truthy m = false ->
    pf_history (ms ++ [m]) ts
| pf_user (ms : list pyval) (ts : list (list Z * list Z)) (m role : pyval)
    (content encoded : list Z) :
    pf_history ms ts -> truthy m = true ->
    py_getitem m (lit "role") = Ok role ->
    py_eq_str role (lit "user") = true ->
    py_getitem m (lit "content") = Ok (PStr content) ->
    quote content = Ok encoded ->
    pf_history (ms ++ [m]) (ts ++ [(encoded, [])])
| pf_assistant (ms : list pyval) (ts : list (list Z * list Z))
    (input output : list Z) (m role : pyval) (content : list Z) :
    pf_history ms (ts ++ [(input, output)]) -> truthy m = true ->
    py_getitem m (lit "role") = Ok role ->
    py_eq_str role (lit "assistant") = true ->
    py_getitem m (lit "content") = Ok (PStr content) ->
    pf_history (ms ++ [m]) (ts ++ [(input, unquote content)])
| pf_assistant_dropped (ms : list pyval) (m role : pyval) :
    pf_history ms [] -> truthy m = true ->
    py_getitem m (lit "role") = Ok role ->
    py_eq_str role (lit "assistant") = true ->
    pf_history (ms ++ [m]) []
| pf_other_role (ms : list pyval) (ts : list (list Z * list Z))
    (m role : pyval) :
    pf_history ms ts -> truthy m = true ->
    py_getitem m (lit "role") = Ok role ->
    py_eq_str role (lit "user") = false ->
    py_eq_str role (lit "assistant") = false ->
    pf_history (ms ++ [m]) ts.

(** The turns as the list of dictionaries the adapter returns. *)
Definition turns_json (req resp : str) (ts : list (list Z * list Z))
  : list pyval :=
  map (fun t => pf_turn req resp (fst t) (snd t)) ts.

(** A message of the history is a user message. *)
Definition is_user_message (m : pyval) : bool :=
  truthy m &&
  match py_getitem m (lit "role") with
  | Ok role => py_eq_str role (lit "user")
  | Raise _ => false
  end.

(** A well-formed entry of a history: an empty entry, or a dictionary with
    a role; a user entry has a text content of Unicode scalar values, an
    assistant entry a text content. *)
Definition well_formed_entry (m : pyval) : Prop :=
  truthy m = false \/
  exists role,
    py_getitem m (lit "role") = Ok role /\
    ((role = PStr (lit "user") /\
      exists content,
        py_getitem m (lit "content") = Ok (PStr content) /\ is_text content) \/
     (role = PStr (lit "assistant") /\
      exists content, py_getitem m (lit "content") = Ok (PStr content)) \/
     (py_eq_str role (lit "user") = false /\
      py_eq_str role (lit "assistant") = false)).

Definition well_formed_history (messages : list pyval) : Prop :=
  Forall well_formed_entry messages.

(** The JSON values: what [json.dumps] serializes without an encoder of
    its own. *)
Fixpoint is_json (v : pyval) : bool :=
  match v with
  | PList l => forallb is_json l
  | PDict d => forallb (fun kv => is_json (snd kv)) d
  | PData _ _ => false
  | PObj _ => false
  | _ => true
  end.

(** The completion and the chunk of the examples: a message with content
    ["A/B"] and context [{"citations": [1]}], and a delta with content
    ["hi"], role ["assistant"] and no context. *)
Definition example_completion : ChatCompletion :=
  mkChatCompletion (PStr (lit "chatcmpl-1")) (PStr (lit "gpt-4"))
    (PInt 1700000000) (PStr (lit "chat.completion"))
    [mkChoice
       (Some (mkMessage (PStr (lit "assistant")) (PStr (lit "A/B"))
                (Some (PDict [(lit "citations", PList [PInt 1])]))))].

Definition example_chunk : ChatCompletionChunk :=
  mkChatCompletionChunk (PStr (lit "chatcmpl-1")) (PStr (lit "gpt-4"))
    (PInt 1700000000) (PStr (lit "chat.completion.chunk"))
    [mkChunkChoice
       (Some (mkMessage (PStr (lit "assistant")) (PStr (lit "hi")) None))].

(** The history [user "hi", assistant "yo"]. *)
Definition example_history : list pyval :=
  [PDict [(lit "role", PStr (lit "user")); (lit "content", PStr (lit "hi"))];
   PDict [(lit "role", PStr (lit "assistant"));
          (lit "content", PStr (lit "yo"))]].

(** Histories the chat API allows and the adapter does not take: a user
    message whose content is a list of parts, and an assistant message
    without content (a tool call) after a user message. *)
Definition example_history_parts : list pyval :=
  [PDict [(lit "role", PStr (lit "user"));
          (lit "content",
           PList [PDict [(lit "type", PStr (lit "text"));
                         (lit "text", PStr (lit "hi"))]])]].

Definition example_history_tool_call : list pyval :=
  [PDict [(lit "role", PStr (lit "user")); (lit "content", PStr (lit "hi"))];
   PDict [(lit "role", PStr (lit "assistant")); (lit "content", PNone)]].

(** The declared type of [content], [Optional[str]], and of a message whose
    [context], when there is one, is JSON data. *)
Definition text_or_none (v : pyval) : bool :=
  match v with
  | PNone => true
  | PStr _ => true
  | _ => false
  end.

Definition typed_message (m : Message) : bool :=
  text_or_none (msg_content m)
  && match msg_context m with
     | Some context => is_json context
     | None => true
     end.

Definition typed_chunk (chunk : ChatCompletionChunk) : bool :=
  match ck_choices chunk with
  | choice0 :: _ =>
      match delta choice0 with
      | Some d => typed_message d
      | None => true
      end
  | [] => true
  end.

(** A completion whose message has no content, as when the model answers
    with a tool call. *)
Definition example_no_content : ChatCompletion :=
  mkChatCompletion (PStr (lit "chatcmpl-2")) (PStr (lit "gpt-4"))
    (PInt 1700000000) (PStr (lit "chat.completion"))
    [mkChoice (Some (mkMessage (PStr (lit "assistant")) PNone None))].

(** The same with a context, and a completion whose message has text
    content and a context that holds an object [json.dumps] refuses. *)
Definition example_context_no_content : ChatCompletion :=
  mkChatCompletion (PStr (lit "chatcmpl-3")) (PStr (lit "gpt-4"))
    (PInt 1700000000) (PStr (lit "chat.completion"))
    [mkChoice
       (Some (mkMessage (PStr (lit "assistant")) PNone
                (Some (PDict [(lit "citations", PList [PInt 1])]))))].

Definition example_context_object : ChatCompletion :=
  mkChatCompletion (PStr (lit "chatcmpl-4")) (PStr (lit "gpt-4"))
    (PInt 1700000000) (PStr (lit "chat.completion"))
    [mkChoice
       (Some (mkMessage (PStr (lit "assistant")) (PStr (lit "A/B"))
                (Some (PDict [(lit "citations",
                               PList [PObj (lit "Citation")])]))))].


(* ===================================================================== *)
(** ** The rest of the module: column lists, the directory lookup *)
(* ===================================================================== *)

(** [s.split(sep)] for a separator of one character: never empty. *)
Fixpoint str_split (sep : Z) (s : str) : list str :=
  match s with
  | [] => [[]]
  | c :: s' =>
      if c =? sep then [] :: str_split sep s'
      else
        match str_split sep s' with
        | item :: items => (c :: item) :: items
        | [] => [[c]]
        end
  end.

(** [c in s] for a character. *)
Definition str_contains (c : Z) (s : str) : bool := existsb (Z.eqb c) s.

Definition parse_multi_columns (columns : str) : list str :=
  if str_contains 124 columns then str_split 124 columns
  else str_split 44 columns.

(** The characters [str.strip()] removes: those of [str.isspace]. *)
Definition is_space (c : Z) : bool :=
  ((0x09 <=? c) && (c <=? 0x0D)) || ((0x1C <=? c) && (c <=? 0x20))
  || (c =? 0x85) || (c =? 0xA0) || (c =? 0x1680)
  || ((0x2000 <=? c) && (c <=? 0x200A))
  || (c =? 0x2028) || (c =? 0x2029) || (c =? 0x202F) || (c =? 0x205F)
  || (c =? 0x3000).

Fixpoint lstrip (s : str) : str :=
  match s with
  | [] => []
  | c :: s' => if is_space c then lstrip s' else s
  end.

Fixpoint rstrip (s : str) : str :=
  match s with
  | [] => []
  | c :: s' =>
      match rstrip s' with
      | [] => if is_space c then [] else [c]
      | kept => c :: kept
      end
  end.

(** [s.strip()]. *)
Definition strip (s : str) : str := rstrip (lstrip s).

(** [s.replace(' ', '')]. *)
Definition remove_spaces (s : str) : str :=
  filter (fun c => negb (c =? 32)) s.

Definition comma_separated_string_to_list (s : str) : list str :=
  str_split 44 (remove_spaces (strip s)).

(** What [requests.get(endpoint, headers=...)] gives: an exception, or a
    response with its [status_code] and what [r.json()] returns or
    raises. *)
Inductive http_response : Type :=
| HttpError
| HttpResponse (status_code : Z) (json : res pyval).

Definition GRAPH_MEMBER_OF : str :=
  lit "https://graph.microsoft.com/v1.0/me/transitiveMemberOf?$select=id".

(** [value.extend(more)]: [value] has to be a list, [more] an iterable. *)
Definition py_extend (value more : pyval) : res pyval :=
  match value with
  | PList l => items <- py_iter more ;; Ok (PList (l ++ items))
  | _ => Raise AttributeError
  end.

Section Directory.

(** The directory service: the response to a request, given its endpoint
    and its [Authorization] header. *)
Variable requests_get : pyval -> str -> http_response.

(** The [except Exception] clause of [fetchUserGroups]: log, return []. *)
Definition or_no_groups (r : res pyval) : pyval :=
  match r with
  | Ok v => v
  | Raise _ => PList []
  end.

(** [fetchUserGroups(userToken, nextLink)].  The recursion follows the
    links of the service, so it is bounded by [depth], the number of
    nested calls allowed; [None] says the bound was reached. *)
Fixpoint fetchUserGroups (depth : nat) (userToken : str) (nextLink : pyval)
  : option pyval :=
  match depth with
  | O => None
  | S depth' =>
      let endpoint :=
        if truthy nextLink then nextLink else PStr GRAPH_MEMBER_OF in
      let authorization := lit "bearer " ++ userToken in
      match requests_get endpoint authorization with
      | HttpError => Some (PList [])
      | HttpResponse status_code json =>
          if negb (status_code =? 200) then Some (PList [])
          else
            match json with
            | Raise _ => Some (PList [])
            | Ok r =>
                match py_contains (lit "@odata.nextLink") r with
                | Raise _ => Some (PList [])
                | Ok true =>
                    match py_getitem r (lit "@odata.nextLink") with
                    | Raise _ => Some (PList [])
                    | Ok link =>
                        match fetchUserGroups depth' userToken link with
                        | None => None
                        | Some nextLinkData =>
                            Some (or_no_groups
                                    (value <- py_getitem r (lit "value") ;;
                                     py_extend value nextLinkData))
                        end
                    end
                | Ok false => Some (or_no_groups (py_getitem r (lit "value")))
                end
            end
      end
  end.

(** The groups the service holds from an endpoint on, and the number of
    requests it takes to read them: a request that fails ends the reading
    with nothing more; a page without a link is the last one; a page with
    a link is followed by the groups from the link on. *)
Inductive directory (userToken : str) : nat -> pyval -> list pyval -> Prop :=
| dir_failed (nextLink : pyval) :
    (requests_get (if truthy nextLink then nextLink
                   else PStr GRAPH_MEMBER_OF)
       (lit "bearer " ++ userToken) = HttpError \/
     (exists status_code json,
         requests_get (if truthy nextLink then nextLink
                       else PStr GRAPH_MEMBER_OF)
           (lit "bearer " ++ userToken) = HttpResponse status_code json /\
         (status_code <> 200 \/ exists e, json = Raise e))) ->
    directory userToken 1 nextLink []
| dir_last (nextLink r : pyval) (groups : list pyval) :
    requests_get (if truthy nextLink then nextLink else PStr GRAPH_MEMBER_OF)
      (lit "bearer " ++ userToken) = HttpResponse 200 (Ok r) ->
    py_contains (lit "@odata.nextLink") r = Ok false ->
    py_getitem r (lit "value") = Ok (PList groups) ->
    directory userToken 1 nextLink groups
| dir_next (nextLink r link : pyval) (groups later : list pyval) (n : nat) :
    requests_get (if truthy nextLink then nextLink else PStr GRAPH_MEMBER_OF)
      (lit "bearer " ++ userToken) = HttpResponse 200 (Ok r) ->
    py_contains (lit "@odata.nextLink") r = Ok true ->
    py_getitem r (lit "@odata.nextLink") = Ok link ->
    py_getitem r (lit "value") = Ok (PList groups) ->
    directory userToken n link later ->
    directory userToken (S n) nextLink (groups ++ later).

End Directory.

(** The value with every dataclass instance in it, at any depth, replaced
    by the dictionary of its fields: what [dataclasses.asdict] makes of an
    instance, carried through lists and dictionaries.  (The copies
    [dataclasses.asdict] makes of the other values are not told apart from
    the values.) *)
Fixpoint asdict (v : pyval) : pyval :=
  let fields :=
    fix fields (d : list (str * pyval)) : list (str * pyval) :=
      match d with
      | [] => []
      | (k, x) :: d' => (k, asdict x) :: fields d'
      end in
  match v with
  | PList l => PList (map asdict l)
  | PDict d => PDict (fields d)
  | PData _ d => PDict (fields d)
  | _ => v
  end.

(** Every [str] in the value, keys included, is made of code points. *)
Fixpoint strs_ok (v : pyval) : Prop :=
  let fields :=
    fix fields (d : list (str * pyval)) : Prop :=
      match d with
      | [] => True
      | (k, x) :: d' => Forall is_code_point k /\ strs_ok x /\ fields d'
      end in
  match v with
  | PStr s => Forall is_code_point s
  | PList l =>
      (fix elements (l : list pyval) : Prop :=
         match l with
         | [] => True
         | x :: l' => strs_ok x /\ elements l'
         end) l
  | PDict d => fields d
  | PData _ d => fields d
  | _ => True
  end.

(** The printable ASCII characters, from the space to ['~']. *)
Definition printable (c : Z) : Prop := 32 <= c <= 126.

(** A directory service with two pages of groups behind the first
    endpoint, answering any other request with status 403. *)
Definition example_next_link : str := lit "https://graph.example/page2".

Definition example_directory (endpoint : pyval) (authorization : str)
  : http_response :=
  if py_eq_str endpoint GRAPH_MEMBER_OF then
    HttpResponse 200
      (Ok (PDict [(lit "@odata.nextLink", PStr example_next_link);
                  (lit "value", PList [PDict [(lit "id", PStr (lit "g1"))]])]))
  else if py_eq_str endpoint example_next_link then
    HttpResponse 200
      (Ok (PDict [(lit "value", PList [PDict [(lit "id", PStr (lit "g2"))]])]))
  else HttpResponse 403 (Raise TypeError).

(* ===================================================================== *)
(** ** Properties of the codec *)
(* ===================================================================== *)

(** One comparison of the goal decided, the impossible side closed by
    linear arithmetic over the quotients and remainders. *)
Ltac ztest :=
  match goal with
  | |- context [Z.ltb ?a ?b] => destruct (Z.ltb_spec a b)
  | |- context [Z.leb ?a ?b] => destruct (Z.leb_spec a b)
  | |- context [Z.eqb ?a ?b] => destruct (Z.eqb_spec a b)
  end;
  cbn [andb orb negb];
  try (exfalso; lia).

Ltac ztests := repeat ztest.

Lemma str_eqb_eq (a b : str) : str_eqb a b = true <-> a = b.
Proof.
  revert b; induction a as [|x a IH]; intros [|y b]; cbn; split; intros H;
    try discriminate; try reflexivity.
  - apply andb_true_iff in H as [H1 H2]. apply Z.eqb_eq in H1.
    apply IH in H2. congruence.
  - injection H as -> ->. rewrite Z.eqb_refl. now apply IH.
Qed.

Lemma str_eqb_refl (a : str) : str_eqb a a = true.
Proof. now apply str_eqb_eq. Qed.

Lemma is_scalar_bounds (c : Z) :
  is_scalar c -> 0 <= c <= 0x10FFFF /\ (c < 0xD800 \/ 0xDFFF < c).
Proof.
  intros [Hr Hs]. split; [exact Hr|].
  unfold is_surrogate in Hs. apply andb_false_iff in Hs as [H|H].
  - left. now apply Z.leb_gt in H.
  - right. now apply Z.leb_gt in H.
Qed.

(** The four base-64 digits of a code point, which the encoder spreads
    over the bytes. *)
Lemma digits64 (c : Z) :
  0 <= c ->
  exists d0 d1 d2 d3,
    c = d0 + 64 * d1 + 4096 * d2 + 262144 * d3 /\
    0 <= d0 < 64 /\ 0 <= d1 < 64 /\ 0 <= d2 < 64 /\ 0 <= d3 /\
    c mod 64 = d0 /\ (c / 64) mod 64 = d1 /\ (c / 4096) mod 64 = d2 /\
    c / 262144 = d3 /\ c / 64 = d1 + 64 * d2 + 4096 * d3 /\
    c / 4096 = d2 + 64 * d3.
Proof.
  intros Hc.
  assert (E2 : c / 4096 = c / 64 / 64) by (rewrite Z.div_div by lia; reflexivity).
  assert (E3 : c / 262144 = c / 64 / 64 / 64)
    by (rewrite !Z.div_div by lia; reflexivity).
  rewrite E2, E3.
  pose proof (Z.div_mod c 64 ltac:(lia)) as H1.
  pose proof (Z.mod_pos_bound c 64 ltac:(lia)) as B1.
  pose proof (Z.div_mod (c / 64) 64 ltac:(lia)) as H2.
  pose proof (Z.mod_pos_bound (c / 64) 64 ltac:(lia)) as B2.
  pose proof (Z.div_mod (c / 64 / 64) 64 ltac:(lia)) as H3.
  pose proof (Z.mod_pos_bound (c / 64 / 64) 64 ltac:(lia)) as B3.
  exists (c mod 64), ((c / 64) mod 64), ((c / 64 / 64) mod 64), (c / 64 / 64 / 64).
  repeat split; try lia.
Qed.

Ltac with_digits c :=
  let d0 := fresh "d0" in let d1 := fresh "d1" in
  let d2 := fresh "d2" in let d3 := fresh "d3" in
  let H := fresh "H" in
  let E0 := fresh "E" in let E1 := fresh "E" in let E2 := fresh "E" in
  let E3 := fresh "E" in let E4 := fresh "E" in let E5 := fresh "E" in
  destruct (digits64 c ltac:(lia))
    as (d0 & d1 & d2 & d3 & H & ? & ? & ? & ? & E0 & E1 & E2 & E3 & E4 & E5);
  rewrite ?E0, ?E1, ?E2, ?E3, ?E4, ?E5;
  clear E0 E1 E2 E3 E4 E5.

(** Encoding succeeds on scalar values and produces bytes. *)
Lemma utf8_encode_char_scalar (c : Z) :
  is_scalar c ->
  exists bs, utf8_encode_char c = Some bs /\ Forall is_byte bs.
Proof.
  intros Hc. destruct (is_scalar_bounds c Hc) as [Hr Hs].
  destruct Hc as [_ Hsur].
  unfold utf8_encode_char. rewrite Hsur.
  unfold is_byte.
  destruct (Z.ltb_spec c 0x80); [|destruct (Z.ltb_spec c 0x800);
    [|destruct (Z.ltb_spec c 0x10000)]];
    (eexists; split; [reflexivity|]); with_digits c;
    repeat constructor; lia.
Qed.

Lemma utf8_encode_char_surrogate (c : Z) :
  is_surrogate c = true -> utf8_encode_char c = None.
Proof.
  intros H. unfold utf8_encode_char. rewrite H.
  unfold is_surrogate in H. apply andb_true_iff in H as [H1 H2].
  apply Z.leb_le in H1. apply Z.leb_le in H2.
  ztests; reflexivity.
Qed.

Lemma utf8_encode_text (s : str) :
  is_text s -> exists bs, utf8_encode s = Some bs /\ Forall is_byte bs.
Proof.
  induction 1 as [|c s Hc _ IH]; cbn.
  - exists []. split; [reflexivity | constructor].
  - destruct (utf8_encode_char_scalar c Hc) as (b1 & -> & Hb1).
    destruct IH as (b2 & -> & Hb2).
    exists (b1 ++ b2). split; [reflexivity|]. now apply Forall_app.
Qed.

(** One step of the decoder, the recursive calls left folded. *)
Lemma utf8_decode_replace_cons (b0 : Z) (r0 : list Z) :
  utf8_decode_replace (b0 :: r0) =
  ltac:(let t := eval cbn [utf8_decode_replace] in
                   (utf8_decode_replace (b0 :: r0)) in exact t).
Proof. reflexivity. Qed.

Ltac decode_head :=
  cbn [app]; rewrite utf8_decode_replace_cons; cbv beta iota;
  unfold is_continuation_byte; ztests; f_equal; lia.

Lemma utf8_decode_1 (c : Z) (rest : list Z) :
  c < 0x80 -> utf8_decode_replace ([c] ++ rest) = c :: utf8_decode_replace rest.
Proof. intros. decode_head. Qed.

Lemma utf8_decode_2 (c : Z) (rest : list Z) :
  0x80 <= c < 0x800 ->
  utf8_decode_replace ([0xC0 + c / 64; 0x80 + c mod 64] ++ rest)
  = c :: utf8_decode_replace rest.
Proof. intros. with_digits c. decode_head. Qed.

Lemma utf8_decode_3 (c : Z) (rest : list Z) :
  0x800 <= c < 0x10000 -> c < 0xD800 \/ 0xDFFF < c ->
  utf8_decode_replace
    ([0xE0 + c / 4096; 0x80 + (c / 64) mod 64; 0x80 + c mod 64] ++ rest)
  = c :: utf8_decode_replace rest.
Proof. intros. with_digits c. decode_head. Qed.

Lemma utf8_decode_4 (c : Z) (rest : list Z) :
  0x10000 <= c <= 0x10FFFF ->
  utf8_decode_replace
    ([0xF0 + c / 262144; 0x80 + (c / 4096) mod 64;
      0x80 + (c / 64) mod 64; 0x80 + c mod 64] ++ rest)
  = c :: utf8_decode_replace rest.
Proof. intros. with_digits c. decode_head. Qed.

(** The decoder reads back what the encoder wrote for one character. *)
Lemma utf8_decode_encode_char (c : Z) (bs rest : list Z) :
  is_scalar c -> utf8_encode_char c = Some bs ->
  utf8_decode_replace (bs ++ rest) = c :: utf8_decode_replace rest.
Proof.
  intros Hc. destruct (is_scalar_bounds c Hc) as [Hr Hs].
  destruct Hc as [_ Hsur].
  unfold utf8_encode_char. rewrite Hsur.
  destruct (Z.ltb_spec c 0x80); [|destruct (Z.ltb_spec c 0x800);
    [|destruct (Z.ltb_spec c 0x10000)]]; intros E; injection E as <-.
  - now apply utf8_decode_1.
  - apply utf8_decode_2; lia.
  - apply utf8_decode_3; [lia | exact Hs].
  - apply utf8_decode_4; lia.
Qed.

Lemma utf8_decode_encode (s : str) (bs : list Z) :
  is_text s -> utf8_encode s = Some bs -> utf8_decode_replace bs = s.
Proof.
  intros Hs; revert bs; induction Hs as [|c s Hc _ IH]; cbn; intros bs.
  - now intros [= <-].
  - destruct (utf8_encode_char c) as [b1|] eqn:E1; [|discriminate].
    destruct (utf8_encode s) as [b2|]; [|discriminate].
    intros [= <-]. rewrite (utf8_decode_encode_char c b1 b2 Hc E1).
    f_equal. now apply IH.
Qed.

(** *** [quote_from_bytes] and [unquote_to_bytes] *)

Lemma quote_from_bytes_flat_map (bs : list Z) :
  quote_from_bytes bs = flat_map quoter bs.
Proof.
  unfold quote_from_bytes. destruct bs as [|b bs]; [reflexivity|].
  destruct (forallb ALWAYS_SAFE (b :: bs)) eqn:E; [|reflexivity].
  revert E. generalize (b :: bs) as l. clear b bs.
  induction l as [|x l IH]; cbn; [reflexivity|].
  intros E. apply andb_true_iff in E as [Ex El].
  unfold quoter. rewrite Ex. cbn. f_equal. now apply IH.
Qed.

Lemma split_percent_not_nil (s : list Z) : split_percent s <> [].
Proof.
  destruct s as [|c s]; cbn; [discriminate|].
  destruct (c =? 37); [discriminate|].
  destruct (split_percent s); discriminate.
Qed.

Lemma join_cons (sep p q : str) (ps : list str) :
  join sep (p :: q :: ps) = p ++ sep ++ join sep (q :: ps).
Proof. reflexivity. Qed.

Lemma split_percent_join (s : list Z) : join [37] (split_percent s) = s.
Proof.
  induction s as [|c s IH]; [reflexivity|].
  cbn [split_percent]. pose proof (split_percent_not_nil s) as Hn.
  destruct (Z.eqb_spec c 37) as [->|Hc];
    destruct (split_percent s) as [|item items]; try congruence.
  - rewrite join_cons, IH. reflexivity.
  - destruct items as [|i2 items].
    + cbn [join] in *. now subst.
    + rewrite <- IH, !join_cons. reflexivity.
Qed.

(** What the loop of [unquote_to_bytes] puts together. *)
Lemma unquote_to_bytes_items (s : list Z) :
  unquote_to_bytes s =
  match split_percent s with
  | first :: items => first ++ flat_map unquote_item items
  | [] => []
  end.
Proof.
  destruct s as [|c s]; [reflexivity|].
  unfold unquote_to_bytes. pose proof (split_percent_join (c :: s)) as J.
  destruct (split_percent (c :: s)) as [|first [|i items]].
  - discriminate J.
  - cbn in J. subst first. cbn. now rewrite app_nil_r.
  - reflexivity.
Qed.

Lemma unquote_to_bytes_other (c : Z) (s : list Z) :
  c <> 37 -> unquote_to_bytes (c :: s) = c :: unquote_to_bytes s.
Proof.
  intros Hc. rewrite !unquote_to_bytes_items. cbn [split_percent].
  destruct (Z.eqb_spec c 37); [contradiction|].
  pose proof (split_percent_not_nil s).
  destruct (split_percent s); [congruence | reflexivity].
Qed.

Lemma is_hexdig_not_percent (h : Z) : is_hexdig h = true -> h <> 37.
Proof. unfold is_hexdig. intros H ->. discriminate. Qed.

Lemma unquote_to_bytes_escape (h1 h2 : Z) (s : list Z) :
  is_hexdig h1 && is_hexdig h2 = true ->
  unquote_to_bytes (37 :: h1 :: h2 :: s)
  = (hexval h1 * 16 + hexval h2) :: unquote_to_bytes s.
Proof.
  intros H. pose proof H as H'. apply andb_true_iff in H' as [H1 H2].
  apply is_hexdig_not_percent in H1, H2.
  rewrite !unquote_to_bytes_items. cbn [split_percent].
  rewrite Z.eqb_refl.
  destruct (Z.eqb_spec h1 37); [contradiction|].
  destruct (Z.eqb_spec h2 37); [contradiction|].
  pose proof (split_percent_not_nil s).
  destruct (split_percent s) as [|first items]; [congruence|].
  cbn [app flat_map unquote_item]. now rewrite H.
Qed.

Lemma unquote_to_bytes_percent (s : list Z) :
  escape_at_head (37 :: s) = false ->
  unquote_to_bytes (37 :: s) = 37 :: unquote_to_bytes s.
Proof.
  intros H. rewrite !unquote_to_bytes_items. cbn [split_percent].
  rewrite Z.eqb_refl. cbn [app flat_map].
  destruct s as [|a [|b t]].
  - reflexivity.
  - cbn [split_percent]. destruct (a =? 37); reflexivity.
  - cbn [escape_at_head] in H. rewrite Z.eqb_refl in H. cbn [andb] in H.
    cbn [split_percent].
    pose proof (split_percent_not_nil t).
    destruct (a =? 37); [reflexivity|].
    destruct (b =? 37); [reflexivity|].
    destruct (split_percent t) as [|first items]; [congruence|].
    cbn [flat_map app unquote_item]. now rewrite H.
Qed.

Lemma unquote_scan_cons (c : Z) (s : list Z) :
  unquote_scan (c :: s) =
  ltac:(let t := eval cbn [unquote_scan] in (unquote_scan (c :: s)) in
        exact t).
Proof. reflexivity. Qed.

Lemma unquote_scan_other (c : Z) (s : list Z) :
  c <> 37 -> unquote_scan (c :: s) = c :: unquote_scan s.
Proof.
  intros Hc. rewrite unquote_scan_cons.
  destruct (Z.eqb_spec c 37); [contradiction | reflexivity].
Qed.

Lemma unquote_scan_escape (h1 h2 : Z) (s : list Z) :
  is_hexdig h1 && is_hexdig h2 = true ->
  unquote_scan (37 :: h1 :: h2 :: s)
  = (hexval h1 * 16 + hexval h2) :: unquote_scan s.
Proof.
  intros H. rewrite unquote_scan_cons. rewrite Z.eqb_refl. cbv beta iota.
  now rewrite H.
Qed.

Lemma unquote_scan_percent (s : list Z) :
  escape_at_head (37 :: s) = false ->
  unquote_scan (37 :: s) = 37 :: unquote_scan s.
Proof.
  intros H. rewrite unquote_scan_cons. rewrite Z.eqb_refl.
  destruct s as [|a [|b t]]; try reflexivity.
  cbn [escape_at_head] in H. rewrite Z.eqb_refl in H. cbn [andb] in H.
  cbv beta iota. now rewrite H.
Qed.

Lemma unquote_to_bytes_scan_bounded (n : nat) (s : list Z) :
  (List.length s <= n)%nat -> unquote_to_bytes s = unquote_scan s.
Proof.
  revert s. induction n as [|n IH]; intros s Hn.
  - destruct s; [reflexivity | cbn in Hn; lia].
  - destruct s as [|c s]; [reflexivity|]. cbn in Hn.
    destruct (Z.eqb_spec c 37) as [->|Hc].
    + destruct (escape_at_head (37 :: s)) eqn:E.
      * destruct s as [|h1 [|h2 t]]; try discriminate E.
        cbn [escape_at_head] in E. rewrite Z.eqb_refl in E. cbn [andb] in E.
        rewrite unquote_to_bytes_escape, unquote_scan_escape by exact E.
        f_equal. apply IH. cbn in Hn. lia.
      * rewrite unquote_to_bytes_percent, unquote_scan_percent by exact E.
        f_equal. apply IH. lia.
    + rewrite unquote_to_bytes_other, unquote_scan_other by exact Hc.
      f_equal. apply IH. lia.
Qed.

Lemma unquote_to_bytes_scan (s : list Z) :
  unquote_to_bytes s = unquote_scan s.
Proof. now apply (unquote_to_bytes_scan_bounded (List.length s)). Qed.

Lemma hex_upper_hexdig (n : Z) :
  0 <= n < 16 -> is_hexdig (hex_upper n) = true /\ hexval (hex_upper n) = n.
Proof.
  intros Hn. unfold is_hexdig, hexval, hex_upper.
  destruct (Z.ltb_spec n 10); split; ztests; try reflexivity; lia.
Qed.

Lemma unquote_quoter (b : Z) (rest : list Z) :
  is_byte b ->
  unquote_to_bytes (quoter b ++ rest) = b :: unquote_to_bytes rest.
Proof.
  intros Hb. unfold is_byte in Hb. unfold quoter.
  destruct (ALWAYS_SAFE b) eqn:E.
  - cbn [app]. apply unquote_to_bytes_other. intros ->. discriminate.
  - cbn [app].
    assert (H1 : 0 <= b / 16 < 16) by (Z.div_mod_to_equations; lia).
    assert (H2 : 0 <= b mod 16 < 16) by (Z.div_mod_to_equations; lia).
    destruct (hex_upper_hexdig _ H1) as [D1 V1].
    destruct (hex_upper_hexdig _ H2) as [D2 V2].
    rewrite unquote_to_bytes_escape by (rewrite D1, D2; reflexivity).
    rewrite V1, V2. f_equal. Z.div_mod_to_equations; lia.
Qed.

Lemma unquote_quote_bytes (bs : list Z) :
  Forall is_byte bs -> unquote_to_bytes (quote_from_bytes bs) = bs.
Proof.
  rewrite quote_from_bytes_flat_map.
  induction 1 as [|b bs Hb _ IH]; [reflexivity|].
  cbn [flat_map]. rewrite unquote_quoter by exact Hb. now rewrite IH.
Qed.

(** Every character [quote] writes is an unreserved one or ['%']. *)
Lemma quoter_chars (b : Z) :
  is_byte b ->
  Forall (fun c => ALWAYS_SAFE c = true \/ c = 37) (quoter b).
Proof.
  intros Hb. unfold is_byte in Hb. unfold quoter.
  destruct (ALWAYS_SAFE b) eqn:E.
  - constructor; [now left | constructor].
  - assert (H1 : 0 <= b / 16 < 16) by (Z.div_mod_to_equations; lia).
    assert (H2 : 0 <= b mod 16 < 16) by (Z.div_mod_to_equations; lia).
    assert (S : forall n, 0 <= n < 16 -> ALWAYS_SAFE (hex_upper n) = true).
    { intros n Hn. unfold ALWAYS_SAFE, hex_upper.
      destruct (Z.ltb_spec n 10); ztests; try reflexivity; lia. }
    constructor; [now right|].
    constructor; [left; now apply S|].
    constructor; [left; now apply S | constructor].
Qed.

Lemma quote_from_bytes_chars (bs : list Z) :
  Forall is_byte bs ->
  Forall (fun c => ALWAYS_SAFE c = true \/ c = 37) (quote_from_bytes bs).
Proof.
  rewrite quote_from_bytes_flat_map.
  induction 1 as [|b bs Hb _ IH]; [constructor|].
  cbn [flat_map]. apply Forall_app. split; [now apply quoter_chars | exact IH].
Qed.

Lemma safe_or_percent_ascii (c : Z) :
  ALWAYS_SAFE c = true \/ c = 37 -> is_ascii c = true.
Proof.
  unfold ALWAYS_SAFE, is_ascii. intros [H | ->]; [|reflexivity].
  revert H. ztests; intros; try reflexivity; try discriminate; lia.
Qed.

(** *** The left-to-right pass: what it keeps and how much it shrinks *)

Lemma has_escape_cons (c : Z) (s : list Z) :
  has_escape (c :: s) = escape_at_head (c :: s) || has_escape s.
Proof. reflexivity. Qed.

Lemma escape_at_head_percent (c : Z) (s : list Z) :
  escape_at_head (c :: s) = true -> c = 37.
Proof.
  destruct s as [|h1 [|h2 t]]; cbn; try discriminate.
  destruct (Z.eqb_spec c 37); [trivial | discriminate].
Qed.

Lemma unquote_scan_no_escape (s : list Z) :
  has_escape s = false -> unquote_scan s = s.
Proof.
  induction s as [|c s IH]; [reflexivity|].
  rewrite has_escape_cons. intros H. apply orb_false_iff in H as [Hh Ht].
  destruct (Z.eqb_spec c 37) as [->|Hc].
  - rewrite unquote_scan_percent by exact Hh. f_equal. now apply IH.
  - rewrite unquote_scan_other by exact Hc. f_equal. now apply IH.
Qed.

Lemma unquote_scan_length_bounded (n : nat) (s : list Z) :
  (List.length s <= n)%nat ->
  (List.length (unquote_scan s) <= List.length s)%nat /\
  (has_escape s = true ->
   (List.length (unquote_scan s) < List.length s)%nat).
Proof.
  revert s. induction n as [|n IH]; intros s Hn.
  - destruct s; [|cbn in Hn; lia]. split; [cbn; lia | discriminate].
  - destruct s as [|c s]; [split; [cbn; lia | discriminate]|].
    cbn [List.length] in Hn. rewrite has_escape_cons.
    destruct (escape_at_head (c :: s)) eqn:E.
    + pose proof (escape_at_head_percent _ _ E) as ->.
      destruct s as [|h1 [|h2 t]]; try discriminate E.
      cbn [escape_at_head] in E. rewrite Z.eqb_refl in E. cbn [andb] in E.
      rewrite unquote_scan_escape by exact E.
      destruct (IH t) as [Hle _]; [cbn [List.length] in Hn; lia|].
      cbn [List.length]. split; intros; lia.
    + destruct (IH s) as [Hle Hlt]; [lia|].
      assert (Es : exists c', unquote_scan (c :: s) = c' :: unquote_scan s).
      { destruct (Z.eqb_spec c 37) as [->|Hc].
        - exists 37. now apply unquote_scan_percent.
        - exists c. now apply unquote_scan_other. }
      destruct Es as [c' ->]. cbn [List.length orb].
      split; [lia|]. intros H. specialize (Hlt H). lia.
Qed.

Lemma unquote_to_bytes_no_escape (s : list Z) :
  has_escape s = false -> unquote_to_bytes s = s.
Proof. rewrite unquote_to_bytes_scan. apply unquote_scan_no_escape. Qed.

Lemma unquote_to_bytes_length (s : list Z) :
  (List.length (unquote_to_bytes s) <= List.length s)%nat.
Proof.
  rewrite unquote_to_bytes_scan.
  now apply (unquote_scan_length_bounded (List.length s)).
Qed.

Lemma unquote_to_bytes_shrinks (s : list Z) :
  has_escape s = true ->
  (List.length (unquote_to_bytes s) < List.length s)%nat.
Proof.
  rewrite unquote_to_bytes_scan.
  now apply (unquote_scan_length_bounded (List.length s)).
Qed.

Lemma has_escape_app_l (a b : list Z) :
  has_escape a = true -> has_escape (a ++ b) = true.
Proof.
  induction a as [|c a IH]; [discriminate|].
  cbn [app]. rewrite !has_escape_cons. intros H.
  apply orb_true_iff in H as [H|H].
  - destruct a as [|h1 [|h2 t]]; try discriminate H.
    cbn [app escape_at_head] in *. now rewrite H.
  - rewrite (IH H). apply orb_true_r.
Qed.

Lemma has_escape_app_r (a b : list Z) :
  has_escape b = true -> has_escape (a ++ b) = true.
Proof.
  intros H. induction a as [|c a IH]; [exact H|].
  cbn [app]. rewrite has_escape_cons, IH. apply orb_true_r.
Qed.

Lemma has_escape_percent (s : list Z) :
  has_escape s = true -> has_percent s = true.
Proof.
  unfold has_percent.
  induction s as [|c s IH]; [discriminate|].
  rewrite has_escape_cons. intros H. cbn [existsb].
  apply orb_true_iff in H as [H|H].
  - apply escape_at_head_percent in H as ->. reflexivity.
  - rewrite (IH H). apply orb_true_r.
Qed.

(** *** The decoder: ASCII is kept, and no input grows *)

Lemma utf8_decode_ascii (s : list Z) :
  Forall (fun c => is_ascii c = true) s -> utf8_decode_replace s = s.
Proof.
  induction 1 as [|c s Hc _ IH]; [reflexivity|].
  change (c :: s) with ([c] ++ s) at 1.
  rewrite utf8_decode_1, IH; [reflexivity|].
  unfold is_ascii in Hc. apply andb_true_iff in Hc as [_ Hc].
  apply Z.leb_le in Hc. lia.
Qed.

Ltac split_decoder :=
  repeat match goal with
  | |- context [if ?b then _ else _] => destruct b
  | |- context [match ?l with [] => _ | _ :: _ => _ end] => destruct l
  end.

Lemma utf8_decode_length_bounded (n : nat) (bs : list Z) :
  (List.length bs <= n)%nat ->
  (List.length (utf8_decode_replace bs) <= List.length bs)%nat.
Proof.
  revert bs. induction n as [|n IH]; intros bs Hn.
  - destruct bs; [cbn; lia | cbn in Hn; lia].
  - destruct bs as [|b0 r0]; [cbn; lia|].
    rewrite utf8_decode_replace_cons.
    split_decoder; cbn [List.length] in *;
      try lia;
      match goal with
      | |- context [utf8_decode_replace ?r] =>
          pose proof (IH r ltac:(cbn [List.length]; lia)) as Hr;
          cbn [List.length] in Hr; lia
      end.
Qed.

Lemma utf8_decode_length (bs : list Z) :
  (List.length (utf8_decode_replace bs) <= List.length bs)%nat.
Proof. now apply (utf8_decode_length_bounded (List.length bs)). Qed.

(** *** The runs of [unquote] *)

Lemma ascii_runs_concat (s : list Z) : flat_map snd (ascii_runs s) = s.
Proof.
  induction s as [|c s IH]; [reflexivity|].
  cbn [ascii_runs]. destruct (ascii_runs s) as [|[a run] runs].
  - cbn in *. now subst.
  - destruct (Bool.eqb a (is_ascii c)); cbn [flat_map snd app] in *;
      now rewrite IH.
Qed.

Lemma ascii_runs_head (c : Z) (s : list Z) :
  exists run runs, ascii_runs (c :: s) = (is_ascii c, c :: run) :: runs.
Proof.
  cbn [ascii_runs]. destruct (ascii_runs s) as [|[a run] runs].
  - now exists [], [].
  - destruct (Bool.eqb a (is_ascii c)) eqn:E.
    + apply Bool.eqb_prop in E. subst a. now exists run, runs.
    + now exists [], ((a, run) :: runs).
Qed.

Lemma ascii_runs_class (s : list Z) :
  Forall (fun r => Forall (fun c => is_ascii c = fst r) (snd r))
    (ascii_runs s).
Proof.
  induction s as [|c s IH]; [constructor|].
  cbn [ascii_runs]. destruct (ascii_runs s) as [|[a run] runs].
  - repeat constructor.
  - inversion IH as [|? ? Hr Hrs]; subst. cbn [fst snd] in Hr.
    destruct (Bool.eqb a (is_ascii c)) eqn:E.
    + apply Bool.eqb_prop in E. constructor; [|exact Hrs].
      cbn [fst snd]. constructor; [now symmetry | exact Hr].
    + constructor; [repeat constructor | exact IH].
Qed.

Lemma ascii_runs_all_ascii (s : list Z) :
  Forall (fun c => is_ascii c = true) s -> s <> [] ->
  ascii_runs s = [(true, s)].
Proof.
  induction 1 as [|c s Hc Hs IH]; [congruence|]. intros _.
  cbn [ascii_runs]. destruct s as [|c' s'].
  - cbn. now rewrite Hc.
  - rewrite IH by discriminate. now rewrite Hc.
Qed.

Lemma ascii_runs_cons_same (c : Z) (s run : list Z) (a : bool)
    (runs : list (bool * list Z)) :
  ascii_runs s = (a, run) :: runs -> is_ascii c = a ->
  ascii_runs (c :: s) = (a, c :: run) :: runs.
Proof.
  intros E Hc. cbn [ascii_runs]. rewrite E, Hc, Bool.eqb_reflx. reflexivity.
Qed.

Lemma is_hexdig_ascii (h : Z) : is_hexdig h = true -> is_ascii h = true.
Proof.
  unfold is_hexdig, is_ascii.
  ztests; intros; try reflexivity; try discriminate; lia.
Qed.

(** An escape sequence lies within one ASCII run. *)
Lemma ascii_runs_escape (s : list Z) :
  has_escape s = true ->
  Exists (fun r => fst r = true /\ has_escape (snd r) = true) (ascii_runs s).
Proof.
  induction s as [|c s IH]; [discriminate|].
  rewrite has_escape_cons. intros H. apply orb_true_iff in H as [H|H].
  - pose proof (escape_at_head_percent _ _ H) as ->.
    destruct s as [|h1 [|h2 t]]; try discriminate H.
    cbn [escape_at_head] in H. rewrite Z.eqb_refl in H. cbn [andb] in H.
    pose proof H as H'. apply andb_true_iff in H' as [D1 D2].
    destruct (ascii_runs_head h2 t) as (run & runs & E2).
    rewrite (is_hexdig_ascii h2 D2) in E2.
    apply (ascii_runs_cons_same h1) in E2; [|now apply is_hexdig_ascii].
    apply (ascii_runs_cons_same 37) in E2; [|reflexivity].
    rewrite E2. apply Exists_cons_hd. cbn [fst snd]. split; [reflexivity|].
    rewrite has_escape_cons. cbn [escape_at_head].
    rewrite Z.eqb_refl, D1, D2. reflexivity.
  - specialize (IH H). cbn [ascii_runs].
    destruct (ascii_runs s) as [|[a run] runs]; [inversion IH|].
    destruct (Bool.eqb a (is_ascii c)).
    + inversion IH as [? ? [Ha He]|? ? Ht]; subst.
      * apply Exists_cons_hd. cbn [fst snd] in *. split; [exact Ha|].
        rewrite has_escape_cons, He. apply orb_true_r.
      * now apply Exists_cons_tl.
    + now apply Exists_cons_tl.
Qed.

Lemma ascii_runs_no_escape (s : list Z) :
  has_escape s = false ->
  Forall (fun r => has_escape (snd r) = false) (ascii_runs s).
Proof.
  intros H. apply Forall_forall. intros r Hr.
  destruct (has_escape (snd r)) eqn:E; [|reflexivity].
  apply in_split in Hr as (l1 & l2 & Hs).
  rewrite <- (ascii_runs_concat s), Hs, flat_map_app in H.
  cbn [flat_map] in H.
  rewrite has_escape_app_r in H; [discriminate|].
  now apply has_escape_app_l.
Qed.

(** *** [unquote] *)

Lemma unquote_run_length (r : bool * list Z) :
  (List.length (unquote_run r) <= List.length (snd r))%nat.
Proof.
  unfold unquote_run. destruct (fst r); [|lia].
  pose proof (utf8_decode_length (unquote_to_bytes (snd r))).
  pose proof (unquote_to_bytes_length (snd r)). lia.
Qed.

Lemma unquote_run_shrinks (r : bool * list Z) :
  fst r = true -> has_escape (snd r) = true ->
  (List.length (unquote_run r) < List.length (snd r))%nat.
Proof.
  intros Ha He. unfold unquote_run. rewrite Ha.
  pose proof (utf8_decode_length (unquote_to_bytes (snd r))).
  pose proof (unquote_to_bytes_shrinks (snd r) He). lia.
Qed.

Lemma unquote_run_no_escape (r : bool * list Z) :
  Forall (fun c => is_ascii c = fst r) (snd r) ->
  has_escape (snd r) = false -> unquote_run r = snd r.
Proof.
  intros Hc He. unfold unquote_run. destruct (fst r); [|reflexivity].
  rewrite unquote_to_bytes_no_escape by exact He.
  now apply utf8_decode_ascii.
Qed.

Lemma unquote_runs_length (runs : list (bool * list Z)) :
  (List.length (flat_map unquote_run runs)
   <= List.length (flat_map snd runs))%nat.
Proof.
  induction runs as [|r runs IH]; [cbn; lia|].
  cbn [flat_map]. rewrite !length_app.
  pose proof (unquote_run_length r). lia.
Qed.

Lemma unquote_runs_shrink (runs : list (bool * list Z)) :
  Exists (fun r => fst r = true /\ has_escape (snd r) = true) runs ->
  (List.length (flat_map unquote_run runs)
   < List.length (flat_map snd runs))%nat.
Proof.
  induction 1 as [r runs [Ha He]|r runs _ IH];
    cbn [flat_map]; rewrite !length_app.
  - pose proof (unquote_run_shrinks r Ha He).
    pose proof (unquote_runs_length runs). lia.
  - pose proof (unquote_run_length r). lia.
Qed.

Lemma unquote_no_percent (s : list Z) :
  has_percent s = false -> unquote s = s.
Proof. intros H. unfold unquote. now rewrite H. Qed.

Lemma unquote_no_escape (s : list Z) :
  has_escape s = false -> unquote s = s.
Proof.
  intros H. unfold unquote. destruct (negb (has_percent s)); [reflexivity|].
  pose proof (ascii_runs_no_escape s H) as Hn.
  pose proof (ascii_runs_class s) as Hc.
  rewrite <- (ascii_runs_concat s) at 2.
  induction (ascii_runs s) as [|r runs IH]; [reflexivity|].
  inversion Hn; inversion Hc; subst. cbn [flat_map].
  rewrite unquote_run_no_escape by assumption. f_equal. now apply IH.
Qed.

Lemma unquote_escape_shrinks (s : list Z) :
  has_escape s = true -> (List.length (unquote s) < List.length s)%nat.
Proof.
  intros H. unfold unquote. rewrite (has_escape_percent s H). cbn [negb].
  rewrite <- (ascii_runs_concat s) at 2.
  apply unquote_runs_shrink. now apply ascii_runs_escape.
Qed.

(** [unquote] leaves a text as it is exactly when the text has no escape
    sequence. *)
Lemma unquote_fixed_iff (s : list Z) :
  unquote s = s <-> has_escape s = false.
Proof.
  split.
  - intros E. destruct (has_escape s) eqn:H; [|reflexivity].
    pose proof (unquote_escape_shrinks s H) as L. rewrite E in L. lia.
  - apply unquote_no_escape.
Qed.

(** On an all-ASCII text, [unquote] is the decoder after
    [unquote_to_bytes]. *)
Lemma unquote_all_ascii (s : list Z) :
  Forall (fun c => is_ascii c = true) s ->
  unquote s = utf8_decode_replace (unquote_to_bytes s).
Proof.
  intros Ha. unfold unquote. destruct (has_percent s) eqn:Hp; cbn [negb].
  - assert (s <> []) by (intros ->; discriminate).
    rewrite ascii_runs_all_ascii by assumption.
    cbn. now rewrite app_nil_r.
  - rewrite unquote_to_bytes_no_escape.
    + symmetry. now apply utf8_decode_ascii.
    + destruct (has_escape s) eqn:He; [|reflexivity].
      apply has_escape_percent in He. congruence.
Qed.

(** [quote] followed by [unquote]. *)
Lemma unquote_quote (s e : list Z) :
  is_text s -> quote s = Ok e -> unquote e = s.
Proof.
  intros Hs. unfold quote. destruct s as [|c s]; [now intros [= <-]|].
  destruct (utf8_encode_text _ Hs) as (bs & Eb & Hb). rewrite Eb.
  intros [= <-]. rewrite unquote_all_ascii.
  - rewrite unquote_quote_bytes by exact Hb.
    now apply utf8_decode_encode.
  - eapply Forall_impl; [|apply quote_from_bytes_chars; exact Hb].
    apply safe_or_percent_ascii.
Qed.

Lemma quote_text (s : list Z) :
  is_text s ->
  exists e, quote s = Ok e /\
            Forall (fun c => ALWAYS_SAFE c = true \/ c = 37) e.
Proof.
  intros Hs. unfold quote. destruct s as [|c s].
  - exists []. split; [reflexivity | constructor].
  - destruct (utf8_encode_text _ Hs) as (bs & -> & Hb).
    eexists. split; [reflexivity|]. now apply quote_from_bytes_chars.
Qed.

Lemma quote_surrogate (s1 s2 : list Z) (c : Z) :
  is_surrogate c = true -> quote (s1 ++ c :: s2) = Raise UnicodeEncodeError.
Proof.
  intros Hc. unfold quote.
  assert (E : utf8_encode (s1 ++ c :: s2) = None).
  { induction s1 as [|x s1 IH]; cbn.
    - now rewrite utf8_encode_char_surrogate.
    - rewrite IH. now destruct (utf8_encode_char x). }
  rewrite E. now destruct (s1 ++ c :: s2) eqn:D; [destruct s1; discriminate|].
Qed.

(* ===================================================================== *)
(** ** Text codec: the round trip and its limits *)
(* ===================================================================== *)

(** C1. For every text [x] (a string of Unicode scalar values, the
    characters UTF-8 encodes), [encode_text_for_ai_search] returns an
    encoding made only of unreserved characters and ['%'] (no other
    character is left as it is: nothing is treated as safe), and
    [decode_text_from_ai_search] of that encoding is [x] exactly. *)
Theorem decode_encode_roundtrip (x : list Z) :
  is_text x ->
  exists e,
    encode_text_for_ai_search (PStr x) = Ok e /\
    Forall (fun c => ALWAYS_SAFE c = true \/ c = 37) e /\
    decode_text_from_ai_search (PStr e) = Ok x.
Proof.
  intros Hx. destruct (quote_text x Hx) as (e & Eq & Hsafe).
  exists e. cbn [encode_text_for_ai_search decode_text_from_ai_search].
  repeat split; try assumption.
  f_equal. now apply unquote_quote.
Qed.

Lemma decode_encode_roundtrip_witness :
  is_text [65; 47; 66; 32; 233; 8364; 128512] /\
  exists e,
    encode_text_for_ai_search (PStr [65; 47; 66; 32; 233; 8364; 128512])
      = Ok e /\
    Forall (fun c => ALWAYS_SAFE c = true \/ c = 37) e /\
    decode_text_from_ai_search (PStr e)
      = Ok [65; 47; 66; 32; 233; 8364; 128512].
Proof.
  assert (H : is_text [65; 47; 66; 32; 233; 8364; 128512]).
  { repeat constructor; cbn; intros; discriminate. }
  split; [exact H | exact (decode_encode_roundtrip _ H)].
Defined.

(** The encoder refuses a lone surrogate, wherever it stands. *)
Lemma encode_lone_surrogate (s1 s2 : list Z) (c : Z) :
  is_surrogate c = true ->
  encode_text_for_ai_search (PStr (s1 ++ c :: s2)) = Raise UnicodeEncodeError.
Proof. apply quote_surrogate. Qed.

(** ["%41"] is not an encoding of anything: [quote] leaves ['A'] as it
    is. *)
Lemma percent_41_not_encoded (x : list Z) :
  encode_text_for_ai_search (PStr x) <> Ok [37; 52; 49].
Proof.
  cbn [encode_text_for_ai_search]. unfold quote.
  destruct x as [|c x]; [discriminate|].
  destruct (utf8_encode (c :: x)) as [bs|]; [|discriminate].
  rewrite quote_from_bytes_flat_map. intros [= E].
  destruct bs as [|b bs]; [discriminate|].
  cbn [flat_map] in E. unfold quoter in E.
  destruct (ALWAYS_SAFE b) eqn:S; cbn [app] in E.
  - injection E as -> _. discriminate.
  - injection E as E1 E2 _. unfold hex_upper in E1, E2.
    assert (b = 65).
    { destruct (Z.ltb_spec (b / 16) 10); destruct (Z.ltb_spec (b mod 16) 10);
        Z.div_mod_to_equations; lia. }
    subst b. discriminate.
Qed.

(** C10. [decode_text_from_ai_search] is the identity on every text with
    no ['%']; the text ["%41"], which holds an escape sequence and is the
    encoding of no text, is altered (to ["A"]); and decoding keeps a text
    as it is if and only if the text contains no percent-escape sequence
    (['%'] followed by two hexadecimal digits). *)
Theorem decode_identity_iff_no_escape :
  (forall x, has_percent x = false ->
             decode_text_from_ai_search (PStr x) = Ok x) /\
  (exists y,
      has_escape y = true /\
      (forall x, encode_text_for_ai_search (PStr x) <> Ok y) /\
      decode_text_from_ai_search (PStr y) <> Ok y) /\
  (forall x, decode_text_from_ai_search (PStr x) = Ok x
             <-> has_escape x = false).
Proof.
  split; [|split].
  - intros x H. cbn. f_equal. now apply unquote_no_percent.
  - exists [37; 52; 49]. split; [reflexivity|]. split.
    + apply percent_41_not_encoded.
    + discriminate.
  - intros x. cbn [decode_text_from_ai_search]. split.
    + intros [= E]. now apply unquote_fixed_iff.
    + intros H. f_equal. now apply unquote_fixed_iff.
Qed.

Lemma decode_identity_iff_no_escape_witness :
  has_percent [49; 48; 48; 32; 111; 107] = false /\
  decode_text_from_ai_search (PStr [49; 48; 48; 32; 111; 107])
    = Ok [49; 48; 48; 32; 111; 107].
Proof.
  split; [reflexivity|].
  exact (proj1 decode_identity_iff_no_escape [49; 48; 48; 32; 111; 107]
           eq_refl).
Defined.

(* ===================================================================== *)
(** ** Response normalizers *)
(* ===================================================================== *)

Lemma append_message_envelope (id model created object : pyval)
    (messages : list pyval) (hm rid messageObj : pyval) :
  append_message (envelope id model created object messages hm rid) messageObj
  = Ok (envelope id model created object (messages ++ [messageObj]) hm rid).
Proof. reflexivity. Qed.

Lemma messages_of_envelope (id model created object : pyval)
    (messages : list pyval) (hm rid : pyval) :
  messages_of (envelope id model created object messages hm rid) = messages.
Proof. reflexivity. Qed.

(** C2, with its domain. For a completion whose first choice has a
    message with text content: when the message carries a [context]
    attribute that [json.dumps] serializes, the envelope's single choice
    holds exactly the tool message with the decoded serialized context
    followed by the assistant message with the decoded content; when the
    message has no [context] attribute, only the assistant message.
    Outside that domain no envelope is returned: a message whose content
    is [None] makes the function raise [TypeError], with or without a
    context, and so does a context that [json.dumps] refuses. *)
Theorem non_streaming_messages (chatCompletion : ChatCompletion)
    (hm rid : pyval) (choice0 : Choice) (others : list Choice) (m : Message) :
  cc_choices chatCompletion = choice0 :: others ->
  message choice0 = Some m ->
  (forall content,
      msg_content m = PStr content ->
      (forall context serialized,
          msg_context m = Some context ->
          json_dumps false context = JOk serialized ->
          format_non_streaming_response chatCompletion hm rid
          = Ok (envelope (cc_id chatCompletion) (cc_model chatCompletion)
                  (cc_created chatCompletion) (cc_object chatCompletion)
                  [tool_message (unquote serialized);
                   assistant_message (unquote content)] hm rid)) /\
      (msg_context m = None ->
       format_non_streaming_response chatCompletion hm rid
       = Ok (envelope (cc_id chatCompletion) (cc_model chatCompletion)
               (cc_created chatCompletion) (cc_object chatCompletion)
               [assistant_message (unquote content)] hm rid))) /\
  (msg_content m = PNone ->
   format_non_streaming_response chatCompletion hm rid = Raise TypeError) /\
  (forall context cls,
      msg_context m = Some context ->
      json_dumps false context = JNotSerializable cls ->
      format_non_streaming_response chatCompletion hm rid = Raise TypeError).
Proof.
  intros Hc Hm. unfold format_non_streaming_response.
  rewrite Hc, Hm. unfold hasattr_context, getattr_context, dumps.
  split; [|split].
  - intros content Hcontent. rewrite Hcontent. split.
    + intros context serialized Hctx Hj. rewrite Hctx. cbv beta iota.
      unfold bind at 2 3. rewrite Hj. reflexivity.
    + intros ->. reflexivity.
  - intros Hcontent. rewrite Hcontent.
    destruct (msg_context m) as [context|]; [|reflexivity].
    cbv beta iota. unfold bind at 2 3.
    destruct (json_dumps false context) as [serialized|cls]; reflexivity.
  - intros context cls Hctx Hj. rewrite Hctx. cbv beta iota.
    unfold bind at 2 3. rewrite Hj. reflexivity.
Qed.

Lemma non_streaming_messages_witness :
  cc_choices example_completion
  = mkChoice
      (Some (mkMessage (PStr (lit "assistant")) (PStr (lit "A/B"))
               (Some (PDict [(lit "citations", PList [PInt 1])])))) :: [] /\
  format_non_streaming_response example_completion (PDict []) PNone
  = Ok (envelope (PStr (lit "chatcmpl-1")) (PStr (lit "gpt-4"))
          (PInt 1700000000) (PStr (lit "chat.completion"))
          [tool_message
             (unquote ([123; 34] ++ lit "citations"
                       ++ [34; 58; 32; 91; 49; 93; 125]));
           assistant_message (unquote (lit "A/B"))]
          (PDict []) PNone).
Proof.
  split; [reflexivity|].
  exact (proj1 (proj1 (non_streaming_messages example_completion (PDict [])
                         PNone _ _ _ eq_refl eq_refl) _ eq_refl)
           _ _ eq_refl eq_refl).
Defined.

(** Completions whose first message is present and carries a context, and
    for which no envelope is returned: the function raises [TypeError],
    because the content is [None] (the decoder is given [None], line 114)
    or because the context holds an object [json.dumps] refuses
    (line 104). *)
Lemma non_streaming_context_raises :
  (exists m others,
      cc_choices example_context_no_content = mkChoice (Some m) :: others /\
      hasattr_context m = true /\ msg_content m = PNone) /\
  format_non_streaming_response example_context_no_content (PDict []) PNone
  = Raise TypeError /\
  ~ (exists v,
        format_non_streaming_response example_context_no_content (PDict [])
          PNone = Ok v) /\
  format_non_streaming_response example_context_object (PDict []) PNone
  = Raise TypeError.
Proof.
  split; [|split; [|split]].
  - eexists _, _. split; [reflexivity|]. split; reflexivity.
  - reflexivity.
  - intros [v H]. discriminate H.
  - reflexivity.
Qed.

(** In the example the contents come out as they went in. *)
Example non_streaming_example :
  messages_of (match format_non_streaming_response example_completion
                       (PDict []) PNone with
               | Ok r => r
               | Raise _ => PNone
               end)
  = [tool_message ([123; 34] ++ lit "citations"
                   ++ [34; 58; 32; 91; 49; 93; 125]);
     assistant_message (lit "A/B")].
Proof. vm_compute. reflexivity. Qed.

(** C3. In [format_stream_response] the branch that appends
    [{role: assistant, context: ...}] is never taken: whatever the chunk,
    a returned envelope holds no message with the key ['context'] (it is
    the empty object, or holds one tool message or one assistant message
    with [content]); a delta that carries a [context] attribute is answered
    by the tool-message branch, which returns at once. *)
Theorem stream_context_branch_unreachable (chunk : ChatCompletionChunk)
    (hm rid out : pyval) :
  format_stream_response chunk hm rid = Ok out ->
  Forall (fun m => has_key m (lit "context") = false) (messages_of out) /\
  (out = PDict [] \/
   exists content,
     messages_of out = [tool_message content] \/
     messages_of out = [assistant_message content]) /\
  (forall choice0 others d context,
      ck_choices chunk = choice0 :: others -> delta choice0 = Some d ->
      msg_context d = Some context ->
      exists serialized,
        json_dumps false context = JOk serialized /\
        messages_of out = [tool_message (unquote serialized)]).
Proof.
  unfold format_stream_response.
  destruct (ck_choices chunk) as [|choice0 others].
  { intros [= <-]. split; [constructor | split; [now left|]].
    intros c0 o d' context' E. discriminate E. }
  destruct (delta choice0) as [d|] eqn:Ed.
  2:{ intros [= <-]. split; [constructor | split; [now left|]].
      intros c0 o d' context' [= <- <-] Ed'. congruence. }
  unfold hasattr_context, getattr_context, dumps.
  destruct (msg_context d) as [context|] eqn:Ectx.
  - cbv beta iota. unfold bind at 1 2.
    destruct (json_dumps false context) as [serialized|cls] eqn:Ej;
      [|discriminate].
    cbn [decode_text_from_ai_search bind].
    rewrite append_message_envelope. cbn [bind app]. intros [= <-].
    rewrite messages_of_envelope. split; [|split].
    + repeat constructor.
    + right. exists (unquote serialized). now left.
    + intros c0 o d' context' [= <- <-] Ed' E'.
      rewrite Ed in Ed'. injection Ed' as <-.
      rewrite Ectx in E'. injection E' as <-.
      exists serialized. now split.
  - rewrite andb_false_r.
    destruct (truthy (msg_content d)).
    + destruct (decode_text_from_ai_search (msg_content d)) as [decoded|e];
        [|discriminate].
      cbn [bind]. rewrite append_message_envelope. cbn [bind app].
      intros [= <-]. rewrite messages_of_envelope. split; [|split].
      * repeat constructor.
      * right. exists decoded. now right.
      * intros c0 o d' context' [= <- <-] Ed' E'. congruence.
    + intros [= <-]. split; [constructor | split; [now left|]].
      intros c0 o d' context' [= <- <-] Ed' E'. congruence.
Qed.

Lemma stream_context_branch_unreachable_witness :
  format_stream_response example_chunk (PDict []) PNone
  = Ok (envelope (PStr (lit "chatcmpl-1")) (PStr (lit "gpt-4"))
          (PInt 1700000000) (PStr (lit "chat.completion.chunk"))
          [assistant_message (lit "hi")] (PDict []) PNone) /\
  Forall (fun m => has_key m (lit "context") = false)
    [assistant_message (lit "hi")].
Proof.
  split; [reflexivity|].
  exact (proj1 (stream_context_branch_unreachable example_chunk (PDict [])
                  PNone _ eq_refl)).
Defined.

(** The guard of the branch, evaluated only when [hasattr(delta,
    "context")] was false, is false. *)
Lemma assistant_context_guard (d : Message) :
  hasattr_context d = false ->
  py_eq_str (msg_role d) (lit "assistant") && hasattr_context d = false.
Proof. intros ->. apply andb_false_r. Qed.

(** C4. A chunk whose first delta is [{content: "hi", role: "assistant"}]
    without context gives an envelope with exactly the one message
    [{role: assistant, content: "hi"}]; a chunk with no choice, with no
    delta, or with a delta that has no context and a falsy content gives
    the empty object. *)
Theorem stream_content_or_empty :
  (forall chunk hm rid others,
      ck_choices chunk
      = mkChunkChoice
          (Some (mkMessage (PStr (lit "assistant")) (PStr (lit "hi")) None))
        :: others ->
      format_stream_response chunk hm rid
      = Ok (envelope (ck_id chunk) (ck_model chunk) (ck_created chunk)
              (ck_object chunk) [assistant_message (lit "hi")] hm rid)) /\
  (forall chunk hm rid,
      ck_choices chunk = [] \/
      (exists others, ck_choices chunk = mkChunkChoice None :: others) \/
      (exists d others,
          ck_choices chunk = mkChunkChoice (Some d) :: others /\
          msg_context d = None /\ truthy (msg_content d) = false) ->
      format_stream_response chunk hm rid = Ok (PDict [])).
Proof.
  split.
  - intros chunk hm rid others E. unfold format_stream_response.
    rewrite E. reflexivity.
  - intros chunk hm rid [E | [(others & E) | (d & others & E & Hc & Ht)]];
      unfold format_stream_response; rewrite E; try reflexivity.
    cbn [delta]. unfold hasattr_context. rewrite Hc, Ht.
    rewrite andb_false_r. reflexivity.
Qed.

Lemma stream_content_or_empty_witness :
  format_stream_response example_chunk (PDict []) PNone
  = Ok (envelope (PStr (lit "chatcmpl-1")) (PStr (lit "gpt-4"))
          (PInt 1700000000) (PStr (lit "chat.completion.chunk"))
          [assistant_message (lit "hi")] (PDict []) PNone) /\
  format_stream_response
    (mkChatCompletionChunk PNone PNone PNone PNone
       [mkChunkChoice (Some (mkMessage PNone (PStr []) None))])
    (PDict []) PNone
  = Ok (PDict []).
Proof.
  split.
  - exact (proj1 stream_content_or_empty example_chunk (PDict []) PNone []
             eq_refl).
  - apply (proj2 stream_content_or_empty).
    right; right. exists (mkMessage PNone (PStr []) None), [].
    repeat split.
Defined.

(** C6. With no completion, [format_pf_non_streaming_response] returns a
    dictionary whose only key is ["error"]; its value is the fixed message
    telling to increase PROMPTFLOW_RESPONSE_TIMEOUT, and none of the
    envelope's fields is there. *)
Theorem pf_no_completion (hm : pyval) (response_field_name
    citations_field_name : list Z) (message_uuid : pyval) :
  let r := format_pf_non_streaming_response PNone hm response_field_name
             citations_field_name message_uuid in
  r = Ok (PDict [(lit "error", PStr PF_NO_RESPONSE)]) /\
  (forall v, r = Ok v ->
     py_keys v = [lit "error"] /\
     has_key v (lit "id") = false /\ has_key v (lit "model") = false /\
     has_key v (lit "choices") = false /\
     has_key v (lit "history_metadata") = false) /\
  is_substring (lit "Increase PROMPTFLOW_RESPONSE_TIMEOUT") PF_NO_RESPONSE
  = true.
Proof.
  cbv zeta. split; [reflexivity|]. split.
  - intros v [= <-]. repeat split.
  - vm_compute. reflexivity.
Qed.

(* ===================================================================== *)
(** ** Promptflow input adapter *)
(* ===================================================================== *)

Lemma py_eq_str_true (v : pyval) (k : list Z) :
  py_eq_str v k = true -> v = PStr k.
Proof.
  destruct v; cbn; try discriminate. intros H.
  apply str_eqb_eq in H. now subst.
Qed.

Lemma encode_ok_inv (v : pyval) (e : list Z) :
  encode_text_for_ai_search v = Ok e -> exists s, v = PStr s /\ quote s = Ok e.
Proof. destruct v; cbn; try discriminate. intros H. now exists s. Qed.

Lemma decode_ok_inv (v : pyval) (d : list Z) :
  decode_text_from_ai_search v = Ok d -> exists s, v = PStr s /\ d = unquote s.
Proof.
  destruct v; cbn; try discriminate.
  - intros [= <-]. now exists s.
  - destruct (existsb _ l); discriminate.
  - destruct (dict_has d0 [37]); discriminate.
Qed.

(** The loop over a history in two parts. *)
Lemma pf_loop_app (req resp : list Z) (a b : list pyval) (acc : list pyval) :
  pf_loop req resp (a ++ b) acc
  = (out <- pf_loop req resp a acc ;; pf_loop req resp b out).
Proof.
  revert acc. induction a as [|m a IH]; intros acc; [reflexivity|].
  cbn [app pf_loop].
  destruct (truthy m); [|apply IH].
  destruct (py_getitem m (lit "role")) as [role|e]; [|reflexivity].
  cbn [bind].
  destruct (py_eq_str role (lit "user")).
  - destruct (py_getitem m (lit "content")) as [content|e]; [|reflexivity].
    cbn [bind].
    destruct (encode_text_for_ai_search content) as [enc|e]; [|reflexivity].
    cbn [bind]. apply IH.
  - destruct (py_eq_str role (lit "assistant")
              && (0 <? Z.of_nat (List.length acc))); [|apply IH].
    destruct (py_getitem m (lit "content")) as [content|e]; [|reflexivity].
    cbn [bind].
    destruct (decode_text_from_ai_search content) as [dec|e]; [|reflexivity].
    cbn [bind].
    destruct (set_last_output acc resp (PStr dec)) as [acc'|e];
      [|reflexivity].
    cbn [bind]. apply IH.
Qed.

Lemma set_last_output_turns (req resp : list Z) (ts : list (list Z * list Z))
    (input output value : list Z) :
  set_last_output (turns_json req resp (ts ++ [(input, output)])) resp
    (PStr value)
  = Ok (turns_json req resp (ts ++ [(input, value)])).
Proof.
  unfold turns_json. induction ts as [|t ts IH].
  - cbn. rewrite str_eqb_refl. reflexivity.
  - cbn [app map]. cbn [set_last_output].
    destruct (map _ (ts ++ [(input, output)])) eqn:E.
    + destruct ts; discriminate E.
    + rewrite IH. reflexivity.
Qed.

Lemma set_last_output_inv (req resp : list Z) (ts : list (list Z * list Z))
    (value : list Z) (out : list pyval) :
  set_last_output (turns_json req resp ts) resp (PStr value) = Ok out ->
  exists ts' input output,
    ts = ts' ++ [(input, output)] /\
    out = turns_json req resp (ts' ++ [(input, value)]).
Proof.
  destruct ts as [|t ts]; [discriminate|].
  destruct (@exists_last _ (t :: ts) ltac:(discriminate))
    as (ts' & [input output] & ->).
  rewrite set_last_output_turns. intros [= <-].
  now exists ts', input, output.
Qed.

Lemma assistant_not_user (role : pyval) :
  py_eq_str role (lit "assistant") = true ->
  py_eq_str role (lit "user") = false.
Proof. intros H. apply py_eq_str_true in H. now subst. Qed.

(** What the relation describes, the loop computes. *)
Lemma pf_loop_sound (req resp : list Z) (ms : list pyval)
    (ts : list (list Z * list Z)) :
  pf_history ms ts -> pf_loop req resp ms [] = Ok (turns_json req resp ts).
Proof.
  induction 1 as [ | ms ts m _ IH Hm
                   | ms ts m role content encoded _ IH Hm Hr Hu Hc Hq
                   | ms ts input output m role content _ IH Hm Hr Ha Hc
                   | ms m role _ IH Hm Hr Ha
                   | ms ts m role _ IH Hm Hr Hu Ha ];
    try reflexivity;
    rewrite pf_loop_app, IH; cbn [bind pf_loop]; rewrite Hm;
    try reflexivity; rewrite Hr; cbn [bind].
  - rewrite Hu, Hc. cbn [bind encode_text_for_ai_search]. rewrite Hq.
    cbn [bind]. unfold turns_json. now rewrite map_app.
  - rewrite (assistant_not_user role Ha), Ha, Hc.
    replace (0 <? Z.of_nat (List.length
               (turns_json req resp (ts ++ [(input, output)])))) with true.
    + cbn [andb bind decode_text_from_ai_search].
      rewrite set_last_output_turns. reflexivity.
    + symmetry. apply Z.ltb_lt. unfold turns_json.
      rewrite length_map, length_app. cbn. lia.
  - rewrite (assistant_not_user role Ha), Ha. reflexivity.
  - rewrite Hu, Ha. reflexivity.
Qed.

Lemma pf_history_count (ms : list pyval) (ts : list (list Z * list Z)) :
  pf_history ms ts ->
  List.length ts = List.length (filter is_user_message ms).
Proof.
  induction 1 as [ | ms ts m _ IH Hm
                   | ms ts m role content encoded _ IH Hm Hr Hu Hc Hq
                   | ms ts input output m role content _ IH Hm Hr Ha Hc
                   | ms m role _ IH Hm Hr Ha
                   | ms ts m role _ IH Hm Hr Hu Ha ];
    try reflexivity;
    rewrite filter_app, length_app; cbn [filter];
    destruct (is_user_message m) eqn:E; unfold is_user_message in E;
    rewrite Hm in E; cbn [andb] in E; try rewrite Hr in E;
    cbv beta iota in E;
    try rewrite (assistant_not_user role Ha) in E; try rewrite Hu in E;
    try discriminate E;
    rewrite ?length_app in *; cbn [List.length] in *; lia.
Qed.

(** Whatever the loop returns, the relation describes. *)
Lemma pf_loop_complete (req resp : list Z) (ms : list pyval)
    (out : list pyval) :
  pf_loop req resp ms [] = Ok out ->
  exists ts, pf_history ms ts /\ out = turns_json req resp ts.
Proof.
  revert out. induction ms as [|m ms IH] using rev_ind; intros out.
  - intros [= <-]. exists []. split; [constructor | reflexivity].
  - rewrite pf_loop_app.
    destruct (pf_loop req resp ms []) as [out0|e]; [|discriminate].
    destruct (IH out0 eq_refl) as (ts & Hts & ->). clear IH.
    cbn [bind pf_loop].
    destruct (truthy m) eqn:Hm.
    2:{ intros [= <-]. exists ts. split; [now constructor | reflexivity]. }
    destruct (py_getitem m (lit "role")) as [role|e] eqn:Hr; [|discriminate].
    cbn [bind].
    destruct (py_eq_str role (lit "user")) eqn:Hu.
    + destruct (py_getitem m (lit "content")) as [content|e] eqn:Hc;
        [|discriminate].
      cbn [bind].
      destruct (encode_text_for_ai_search content) as [enc|e] eqn:He;
        [|discriminate].
      cbn [bind]. intros [= <-].
      apply encode_ok_inv in He as (s & -> & Hq).
      exists (ts ++ [(enc, [])]). split.
      * now apply pf_user with (role := role) (content := s).
      * unfold turns_json. now rewrite map_app.
    + destruct (py_eq_str role (lit "assistant")) eqn:Ha.
      2:{ cbn [andb]. intros [= <-]. exists ts. split; [|reflexivity].
          now apply pf_other_role with (role := role). }
      destruct (0 <? Z.of_nat (List.length (turns_json req resp ts))) eqn:Hl;
        cbn [andb].
      * destruct (py_getitem m (lit "content")) as [content|e] eqn:Hc;
          [|discriminate].
        cbn [bind].
        destruct (decode_text_from_ai_search content) as [dec|e] eqn:Hd;
          [|discriminate].
        cbn [bind].
        destruct (set_last_output (turns_json req resp ts) resp (PStr dec))
          as [out'|e] eqn:Hs; [|discriminate].
        cbn [bind]. intros [= <-].
        apply decode_ok_inv in Hd as (s & -> & ->).
        apply set_last_output_inv in Hs as (ts' & input & output & -> & ->).
        exists (ts' ++ [(input, unquote s)]). split; [|reflexivity].
        now apply pf_assistant with (output := output) (role := role).
      * intros [= <-]. destruct ts as [|t ts].
        -- exists []. split; [|reflexivity].
           now apply pf_assistant_dropped with (role := role).
        -- cbn in Hl. discriminate Hl.
Qed.

Lemma getitem_truthy (m v : pyval) (k : list Z) :
  py_getitem m k = Ok v -> truthy m = true.
Proof.
  destruct m; try discriminate. destruct d; [discriminate | reflexivity].
Qed.

(** A well-formed history amounts to turns. *)
Lemma well_formed_history_turns (ms : list pyval) :
  well_formed_history ms -> exists ts, pf_history ms ts.
Proof.
  unfold well_formed_history.
  induction ms as [|m ms IH] using rev_ind; intros H.
  { exists []. constructor. }
  apply Forall_app in H as [Hms Hm].
  destruct (IH Hms) as [ts Hts]. clear IH Hms.
  inversion Hm as [|? ? Hx _]; subst. clear Hm.
  destruct Hx as [Hf | (role & Hr & [(-> & content & Hc & Ht)
                                    | [(-> & content & Hc) | (Hu & Ha)]])].
  - exists ts. now apply pf_empty_entry.
  - destruct (quote_text content Ht) as (encoded & Hq & _).
    exists (ts ++ [(encoded, [])]).
    apply pf_user with (role := PStr (lit "user")) (content := content);
      try assumption; [|reflexivity].
    exact (getitem_truthy _ _ _ Hr).
  - destruct ts as [|t ts0].
    + exists [].
      apply pf_assistant_dropped with (role := PStr (lit "assistant"));
        try assumption; [|reflexivity].
      exact (getitem_truthy _ _ _ Hr).
    + destruct (@exists_last _ (t :: ts0) ltac:(discriminate))
        as (ts' & [input output] & E).
      rewrite E in Hts. exists (ts' ++ [(input, unquote content)]).
      apply pf_assistant with (output := output)
                              (role := PStr (lit "assistant"));
        try assumption; [|reflexivity].
      exact (getitem_truthy _ _ _ Hr).
  - exists ts. apply pf_other_role with (role := role); try assumption.
    exact (getitem_truthy _ _ _ Hr).
Qed.

(** C5, with its domain. On an input whose ["messages"] is a well-formed
    history (every entry is empty or a dictionary with a role, user
    entries have a text content of Unicode scalar values, assistant
    entries a text content), [convert_to_pf_format] returns, and what it
    returns are the turns the history amounts to: one turn per user
    message, in order, created with the encoded content as input and an
    empty output; an assistant message sets the output of the last turn to
    its decoded content; an assistant message before any user message is
    dropped; empty entries and other roles are ignored.  Whatever the
    history, nothing else than these turns is ever returned. *)
Theorem convert_to_pf_format_turns (input_json : pyval)
    (request_field_name response_field_name : list Z) (messages : list pyval) :
  py_getitem input_json (lit "messages") = Ok (PList messages) ->
  (well_formed_history messages ->
   exists turns,
     pf_history messages turns /\
     List.length turns = List.length (filter is_user_message messages) /\
     convert_to_pf_format input_json request_field_name response_field_name
     = Ok (PList (turns_json request_field_name response_field_name turns))) /\
  (forall out,
      convert_to_pf_format input_json request_field_name response_field_name
      = Ok out
      <->
      exists turns,
        pf_history messages turns /\
        List.length turns = List.length (filter is_user_message messages) /\
        out = PList (turns_json request_field_name response_field_name turns)).
Proof.
  intros Hm. unfold convert_to_pf_format. rewrite Hm.
  cbn [bind py_iter]. split.
  { intros Hwf. destruct (well_formed_history_turns messages Hwf) as [ts Hts].
    exists ts. split; [exact Hts|]. split; [now apply pf_history_count|].
    now rewrite (pf_loop_sound _ _ _ _ Hts). }
  intros out. split.
  - destruct (pf_loop request_field_name response_field_name messages [])
      as [o|e] eqn:E; [|discriminate].
    cbn [bind]. intros [= <-].
    apply pf_loop_complete in E as (ts & Hts & ->).
    exists ts. split; [exact Hts|]. split; [|reflexivity].
    now apply pf_history_count.
  - intros (ts & Hts & _ & ->).
    now rewrite (pf_loop_sound _ _ _ _ Hts).
Qed.

Lemma convert_to_pf_format_turns_witness :
  py_getitem (PDict [(lit "messages", PList example_history)])
    (lit "messages") = Ok (PList example_history) /\
  well_formed_history example_history /\
  exists turns,
    pf_history example_history turns /\
    List.length turns
    = List.length (filter is_user_message example_history) /\
    convert_to_pf_format (PDict [(lit "messages", PList example_history)])
      (lit "q") (lit "a")
    = Ok (PList (turns_json (lit "q") (lit "a") turns)).
Proof.
  assert (H : well_formed_history example_history).
  { constructor; [|constructor; [|constructor]]; right.
    - exists (PStr (lit "user")). split; [reflexivity|]. left.
      split; [reflexivity|]. exists (lit "hi"). split; [reflexivity|].
      repeat constructor; cbn; intros; discriminate.
    - exists (PStr (lit "assistant")). split; [reflexivity|]. right. left.
      split; [reflexivity|]. exists (lit "yo"). reflexivity. }
  split; [reflexivity|]. split; [exact H|].
  exact (proj1 (convert_to_pf_format_turns
                  (PDict [(lit "messages", PList example_history)])
                  (lit "q") (lit "a") example_history eq_refl) H).
Defined.

(** The turns of the example. *)
Example convert_to_pf_format_example :
  convert_to_pf_format (PDict [(lit "messages", PList example_history)])
    (lit "q") (lit "a")
  = Ok (PList [pf_turn (lit "q") (lit "a") (lit "hi") (lit "yo")]).
Proof. vm_compute. reflexivity. Qed.

(** Histories the chat API allows and for which no turn is returned: a
    user message whose content is a list of parts, or a text with a lone
    surrogate, and an assistant message without content after a user
    message make [convert_to_pf_format] raise. *)
Lemma convert_to_pf_format_raises :
  convert_to_pf_format (PDict [(lit "messages", PList example_history_parts)])
    (lit "q") (lit "a")
  = Raise TypeError /\
  ~ (exists out,
        convert_to_pf_format
          (PDict [(lit "messages", PList example_history_parts)])
          (lit "q") (lit "a") = Ok out) /\
  convert_to_pf_format
    (PDict [(lit "messages", PList example_history_tool_call)])
    (lit "q") (lit "a")
  = Raise TypeError /\
  convert_to_pf_format
    (PDict [(lit "messages",
             PList [PDict [(lit "role", PStr (lit "user"));
                           (lit "content", PStr [0xD83D])]])])
    (lit "q") (lit "a")
  = Raise UnicodeEncodeError.
Proof.
  split; [reflexivity|]. split; [|split; reflexivity].
  intros [out H]. discriminate H.
Qed.

(* ===================================================================== *)
(** ** NDJSON stream formatter *)
(* ===================================================================== *)

Lemma ndjson_handler_line (error : list Z) :
  ndjson_handler error = mkGenerated [error_line error] None.
Proof. reflexivity. Qed.

(** The events that serialize come out one per line, in order, each line
    ended by a newline; what follows is up to the rest of the iterator. *)
Lemma format_as_ndjson_yields (events : list pyval) (lines : list (list Z))
    (rest : async_iter) :
  Forall2 (fun event line => json_dumps true event = JOk line) events lines ->
  format_as_ndjson (yields events rest)
  = mkGenerated
      (map (fun line => line ++ [10]) lines ++ yielded (format_as_ndjson rest))
      (raised (format_as_ndjson rest)).
Proof.
  induction 1 as [|event line events lines He _ IH]; cbn [yields].
  - now destruct (format_as_ndjson rest).
  - cbn [format_as_ndjson]. rewrite He, IH. reflexivity.
Qed.

(** The iterator ends: the lines and nothing else. *)
Lemma format_as_ndjson_end (events : list pyval) (lines : list (list Z)) :
  Forall2 (fun event line => json_dumps true event = JOk line) events lines ->
  format_as_ndjson (yields events AEnd)
  = mkGenerated (map (fun line => line ++ [10]) lines) None.
Proof.
  intros H. rewrite (format_as_ndjson_yields _ _ _ H). cbn.
  now rewrite app_nil_r.
Qed.

(** An event that does not serialize: the error line is the last string,
    whatever the iterator had after the event, and nothing is raised. *)
Lemma format_as_ndjson_not_serializable (events : list pyval)
    (lines : list (list Z)) (event : pyval) (cls : list Z)
    (rest : async_iter) :
  Forall2 (fun event line => json_dumps true event = JOk line) events lines ->
  json_dumps true event = JNotSerializable cls ->
  format_as_ndjson (yields events (AYield event rest))
  = mkGenerated
      (map (fun line => line ++ [10]) lines
       ++ [error_line (not_serializable_message cls)])
      None.
Proof.
  intros H He. rewrite (format_as_ndjson_yields _ _ _ H).
  cbn [format_as_ndjson]. rewrite He. reflexivity.
Qed.

Lemma error_line_last (message : list Z) : last (error_line message) 0 = 125.
Proof.
  unfold error_line. rewrite !app_assoc. apply last_last.
Qed.

(** While the iterator raises nothing but [Exception]s, nothing is raised
    to the consumer. *)
Lemma format_as_ndjson_never_raises (r : async_iter) :
  raises_exceptions_only r = true -> raised (format_as_ndjson r) = None.
Proof.
  induction r as [|event rest IH|error|error];
    cbn [format_as_ndjson raises_exceptions_only]; intros H.
  - reflexivity.
  - destruct (json_dumps true event) as [s|cls]; [exact (IH H)|].
    now rewrite ndjson_handler_line.
  - now rewrite ndjson_handler_line.
  - discriminate H.
Qed.

(** C7 (the code departs from the claim on the last line). When the
    iterator raises an [Exception] after the events, or comes to an event
    that does not serialize, [format_as_ndjson] yields the lines of the
    events before, each ended by a newline, in order, then exactly one
    more string, [{"error": "<message>"}], and ends.  That last string
    ends with the closing brace: no newline is appended to it, unlike the
    lines of the events.  No exception comes out of the formatter as long
    as the iterator raises nothing but [Exception]s; an exception that is
    not an [Exception] (a cancellation) is not handled: after the lines of
    the events it comes out of the formatter, and no error line is
    yielded. *)
Theorem format_as_ndjson_error_line (events : list pyval)
    (lines : list (list Z)) :
  Forall2 (fun event line => json_dumps true event = JOk line) events lines ->
  (forall error,
      format_as_ndjson (yields events (ARaise error))
      = mkGenerated
          (map (fun line => line ++ [10]) lines ++ [error_line error]) None) /\
  (forall event cls rest,
      json_dumps true event = JNotSerializable cls ->
      format_as_ndjson (yields events (AYield event rest))
      = mkGenerated
          (map (fun line => line ++ [10]) lines
           ++ [error_line (not_serializable_message cls)]) None) /\
  (forall message,
      last (error_line message) 0 = 125 /\ last (error_line message) 0 <> 10) /\
  (forall r,
      raises_exceptions_only r = true -> raised (format_as_ndjson r) = None) /\
  (forall error,
      format_as_ndjson (yields events (ARaiseBase error))
      = mkGenerated (map (fun line => line ++ [10]) lines) (Some error)).
Proof.
  intros H. split; [|split; [|split; [|split]]].
  - intros error. rewrite (format_as_ndjson_yields _ _ _ H).
    cbn [format_as_ndjson]. now rewrite ndjson_handler_line.
  - intros event cls rest He.
    now apply format_as_ndjson_not_serializable.
  - intros message. rewrite error_line_last. split; [reflexivity|discriminate].
  - apply format_as_ndjson_never_raises.
  - intros error. rewrite (format_as_ndjson_yields _ _ _ H).
    cbn [format_as_ndjson yielded raised]. now rewrite app_nil_r.
Qed.

Lemma format_as_ndjson_error_line_witness :
  Forall2 (fun event line => json_dumps true event = JOk line) [] [] /\
  format_as_ndjson (ARaise (lit "boom"))
  = mkGenerated [[123; 34] ++ lit "error" ++ [34; 58; 32; 34] ++ lit "boom"
                 ++ [34; 125]] None.
Proof.
  split; [constructor|].
  exact (proj1 (format_as_ndjson_error_line [] [] (Forall2_nil _))
           (lit "boom")).
Defined.

(* ===================================================================== *)
(** ** Group filter *)
(* ===================================================================== *)

Lemma group_ids_ok (groups : list pyval) (ids : list (list Z)) :
  Forall2 (fun g gid => py_getitem g (lit "id") = Ok (PStr gid)) groups ids ->
  map_res (fun obj => py_getitem obj (lit "id")) groups = Ok (map PStr ids).
Proof.
  induction 1 as [|g gid groups ids Hg _ IH]; [reflexivity|].
  cbn [map_res map]. rewrite Hg, IH. reflexivity.
Qed.

Lemma py_join_strs (sep : list Z) (ids : list (list Z)) :
  py_join sep (map PStr ids) = Ok (join sep ids).
Proof.
  unfold py_join.
  assert (E : map_res (fun v => match v with
                                | PStr s => Ok s
                                | _ => Raise TypeError
                                end) (map PStr ids) = Ok ids).
  { induction ids as [|i ids IH]; [reflexivity|].
    cbn [map map_res bind]. rewrite IH. reflexivity. }
  rewrite E. reflexivity.
Qed.

(** C9, as the code has it. For every list of groups (dictionaries with a
    text [id]), [generateFilterString] joins the ids with [", "] and
    returns [<column>/any(g:search.in(g, '<ids>'))], also when there is no
    group (the id list is then empty); the column is rendered as the
    f-string renders it: an empty column name gives an empty prefix, an
    absent one (not set in the environment) gives the prefix ["None"]. *)
Theorem filter_string_rendering (column : option (list Z))
    (fetchUserGroups : list Z -> list pyval) (userToken : list Z)
    (ids : list (list Z)) :
  Forall2 (fun g gid => py_getitem g (lit "id") = Ok (PStr gid))
    (fetchUserGroups userToken) ids ->
  generateFilterString column fetchUserGroups userToken
  = Ok (format_environ column ++ lit "/any(g:search.in(g, '"
        ++ join (lit ", ") ids ++ lit "'))") /\
  (ids = [] ->
   generateFilterString column fetchUserGroups userToken
   = Ok (format_environ column ++ lit "/any(g:search.in(g, ''))")) /\
  format_environ (Some []) = [] /\
  format_environ None = lit "None".
Proof.
  intros H. unfold generateFilterString.
  rewrite (group_ids_ok _ _ H). cbn [bind]. rewrite py_join_strs.
  cbn [bind]. split; [reflexivity|]. split; [|split; reflexivity].
  intros ->. reflexivity.
Qed.

Lemma filter_string_rendering_witness :
  Forall2 (fun g gid => py_getitem g (lit "id") = Ok (PStr gid))
    [PDict [(lit "id", PStr (lit "g1"))]; PDict [(lit "id", PStr (lit "g2"))]]
    [lit "g1"; lit "g2"] /\
  generateFilterString (Some (lit "group_ids"))
    (fun _ => [PDict [(lit "id", PStr (lit "g1"))];
               PDict [(lit "id", PStr (lit "g2"))]])
    (lit "token")
  = Ok (lit "group_ids/any(g:search.in(g, 'g1, g2'))").
Proof.
  assert (H : Forall2
                (fun g gid => py_getitem g (lit "id") = Ok (PStr gid))
                [PDict [(lit "id", PStr (lit "g1"))];
                 PDict [(lit "id", PStr (lit "g2"))]]
                [lit "g1"; lit "g2"]).
  { repeat constructor. }
  split; [exact H|].
  exact (proj1 (filter_string_rendering (Some (lit "group_ids"))
                  (fun _ => [PDict [(lit "id", PStr (lit "g1"))];
                             PDict [(lit "id", PStr (lit "g2"))]])
                  (lit "token") [lit "g1"; lit "g2"] H)).
Defined.

(** With the column not set, the filter starts with ["None"], not with
    the empty string. *)
Lemma filter_string_column_absent :
  generateFilterString None (fun _ => []) (lit "token")
  = Ok (lit "None/any(g:search.in(g, ''))") /\
  generateFilterString None (fun _ => []) (lit "token")
  <> Ok ([] ++ lit "/any(g:search.in(g, ''))").
Proof. split; [reflexivity | discriminate]. Qed.

(* ===================================================================== *)
(** ** Which failures are returned as data *)
(* ===================================================================== *)

(** Induction on values, through the lists and dictionaries. *)
Lemma pyval_nested_ind (P : pyval -> Prop) :
  P PNone -> (forall b, P (PBool b)) -> (forall z, P (PInt z)) ->
  (forall s, P (PStr s)) ->
  (forall l, Forall P l -> P (PList l)) ->
  (forall d, Forall (fun kv => P (snd kv)) d -> P (PDict d)) ->
  (forall cls d, Forall (fun kv => P (snd kv)) d -> P (PData cls d)) ->
  (forall cls, P (PObj cls)) ->
  forall v, P v.
Proof.
  intros HN HB HI HS HL HD HDa HO. fix IH 1.
  intros [ | b | z | s | l | d | cls d | cls];
    [apply HN | apply HB | apply HI | apply HS | | | | apply HO].
  - apply HL. revert l. fix IHl 1. intros [|x l]; constructor;
      [apply IH | apply IHl].
  - apply HD. revert d. fix IHd 1. intros [|[k x] d]; constructor;
      [apply IH | apply IHd].
  - apply HDa. revert d. fix IHd 1. intros [|[k x] d]; constructor;
      [apply IH | apply IHd].
Qed.

(** [json.dumps] serializes every JSON value. *)
Lemma json_dumps_is_json (dc : bool) (v : pyval) :
  is_json v = true -> exists s, json_dumps dc v = JOk s.
Proof.
  induction v as [ | b | z | s | l IHl | d IHd | cls d IHd | cls]
    using pyval_nested_ind;
    cbn [is_json]; intros Hj; try discriminate;
    try (eexists; reflexivity).
  - destruct b; eexists; reflexivity.
  - cbn [json_dumps].
    match goal with
    | |- context [jbind (?f l) _] =>
        assert (E : exists ss, f l = JOk ss)
    end.
    { induction IHl as [|x l Hx _ IH]; [now exists []|].
      cbn [forallb] in Hj. apply andb_true_iff in Hj as [Hx' Hl'].
      destruct (Hx Hx') as [s ->]. destruct (IH Hl') as [ss ->].
      eexists. reflexivity. }
    destruct E as [ss ->]. eexists. reflexivity.
  - cbn [json_dumps].
    match goal with
    | |- context [jbind (?f d) _] =>
        assert (E : exists ss, f d = JOk ss)
    end.
    { induction IHd as [|[k x] d Hx _ IH]; [now exists []|].
      cbn [forallb snd] in Hj, Hx. apply andb_true_iff in Hj as [Hx' Hd'].
      destruct (Hx Hx') as [s ->]. destruct (IH Hd') as [ss ->].
      eexists. reflexivity. }
    destruct E as [ss ->]. eexists. reflexivity.
Qed.

Lemma dict_has_get (d : list (list Z * pyval)) (k : list Z) :
  dict_has d k = true -> exists v, dict_get d k = Some v.
Proof.
  unfold dict_has. destruct (dict_get d k) as [v|]; [|discriminate].
  now exists v.
Qed.

(** The promptflow formatter returns for every dictionary. *)
Lemma format_pf_dict_returns (d : list (list Z * pyval)) (hm : pyval)
    (r c : list Z) (uuid : pyval) :
  exists v,
    format_pf_non_streaming_response (PDict d) hm r c uuid = Ok v /\
    ((exists error, dict_get d (lit "error") = Some error /\
                    v = PDict [(lit "error", error)]) \/
     v = PDict [] \/
     (exists id messages, v = pf_envelope id hm messages)).
Proof.
  unfold format_pf_non_streaming_response.
  cbn [py_contains bind].
  destruct (dict_has d (lit "error")) eqn:He.
  - destruct (dict_has_get _ _ He) as [error Hg].
    cbn [py_getitem]. rewrite Hg. cbn [bind].
    eexists. split; [reflexivity|]. left. now exists error.
  - destruct (format_pf_try (PDict d) hm r c) as [v|e] eqn:Et.
    + exists v. split; [reflexivity|]. right. right.
      unfold format_pf_try in Et.
      repeat match type of Et with
             | (bind ?x _) = _ => destruct x; cbn [bind] in Et;
                                  try discriminate Et
             end.
      injection Et as <-. eauto.
    + exists (PDict []). split; [reflexivity|]. right. now left.
Qed.

Lemma format_stream_typed_returns (chunk : ChatCompletionChunk)
    (hm rid : pyval) :
  typed_chunk chunk = true ->
  exists v, format_stream_response chunk hm rid = Ok v.
Proof.
  unfold typed_chunk, format_stream_response.
  destruct (ck_choices chunk) as [|choice0 others]; [eauto|].
  destruct (delta choice0) as [d|]; [|eauto].
  unfold typed_message, hasattr_context, getattr_context, dumps.
  intros H. apply andb_true_iff in H as [Hc Hx].
  destruct (msg_context d) as [context|].
  - destruct (json_dumps_is_json false context Hx) as [s Hs].
    cbv beta iota. unfold bind at 1 2. rewrite Hs.
    cbn [decode_text_from_ai_search bind].
    rewrite append_message_envelope. cbn [bind]. eauto.
  - rewrite andb_false_r.
    destruct (msg_content d) as [ | | | s | | | | ]; try discriminate Hc.
    + cbn [truthy]. eauto.
    + destruct (truthy (PStr s)); [|eauto].
      cbn [decode_text_from_ai_search bind].
      rewrite append_message_envelope. cbn [bind]. eauto.
Qed.

(** C8, as the code has it. [format_pf_non_streaming_response] never
    raises on a null or dictionary completion: it returns the
    [{"error": ...}] payload, the envelope, or [{}] for any failure while
    the envelope is built.  [format_stream_response] never raises on a
    chunk whose delta has text or null content and JSON context.
    [format_non_streaming_response] returns [{}] for no choice or no
    message, but raises [TypeError] when the message has null content;
    [convert_to_pf_format] raises [KeyError] on a dictionary without
    ["messages"]: these two handle no exception. *)
Theorem failures_returned_where_handled :
  (forall completion hm r c uuid,
      completion = PNone \/ (exists d, completion = PDict d) ->
      exists v,
        format_pf_non_streaming_response completion hm r c uuid = Ok v /\
        (has_key v (lit "error") = true \/ v = PDict [] \/
         exists id messages, v = pf_envelope id hm messages)) /\
  (forall chunk hm rid,
      typed_chunk chunk = true ->
      exists v, format_stream_response chunk hm rid = Ok v) /\
  (forall cc hm rid,
      cc_choices cc = [] \/
      (exists others, cc_choices cc = mkChoice None :: others) ->
      format_non_streaming_response cc hm rid = Ok (PDict [])) /\
  (forall cc hm rid role others,
      cc_choices cc = mkChoice (Some (mkMessage role PNone None)) :: others ->
      format_non_streaming_response cc hm rid = Raise TypeError) /\
  (forall d request_field_name response_field_name,
      dict_get d (lit "messages") = None ->
      convert_to_pf_format (PDict d) request_field_name response_field_name
      = Raise KeyError).
Proof.
  split; [|split; [|split; [|split]]].
  - intros completion hm r c uuid [-> | [d ->]].
    + eexists. split; [reflexivity|]. now left.
    + destruct (format_pf_dict_returns d hm r c uuid)
        as (v & Hv & [(error & _ & ->) | [-> | Henv]]);
        exists v + (eexists); (split; [exact Hv|]); auto.
  - intros chunk hm rid. apply format_stream_typed_returns.
  - intros cc hm rid [E | [others E]];
      unfold format_non_streaming_response; now rewrite E.
  - intros cc hm rid role others E.
    unfold format_non_streaming_response. now rewrite E.
  - intros d req resp E. unfold convert_to_pf_format.
    cbn [py_getitem]. now rewrite E.
Qed.

Lemma failures_returned_where_handled_witness :
  (exists v,
      format_pf_non_streaming_response
        (PDict [(lit "answer", PInt 7)]) PNone (lit "answer")
        (lit "citations") PNone = Ok v /\
      (has_key v (lit "error") = true \/ v = PDict [] \/
       exists id messages, v = pf_envelope id PNone messages)) /\
  format_pf_non_streaming_response
    (PDict [(lit "answer", PInt 7)]) PNone (lit "answer")
    (lit "citations") PNone = Ok (PDict []) /\
  format_non_streaming_response example_no_content (PDict []) PNone
  = Raise TypeError.
Proof.
  split; [|split].
  - apply (proj1 failures_returned_where_handled).
    right. now exists [(lit "answer", PInt 7)].
  - reflexivity.
  - exact (proj1 (proj2 (proj2 (proj2 failures_returned_where_handled)))
             example_no_content (PDict []) PNone _ _ eq_refl).
Defined.

(** The adapter and the non-streaming formatter raise on inputs they can
    be given: a request without ["messages"], a message without
    content. *)
Lemma formatters_raise :
  convert_to_pf_format (PDict []) (lit "q") (lit "a") = Raise KeyError /\
  format_non_streaming_response example_no_content (PDict []) PNone
  = Raise TypeError /\
  ~ (exists v, convert_to_pf_format (PDict []) (lit "q") (lit "a") = Ok v).
Proof.
  split; [reflexivity|]. split; [reflexivity|].
  intros [v H]. discriminate H.
Qed.

(* ===================================================================== *)
(** ** Column lists *)
(* ===================================================================== *)

Lemma str_split_not_nil (sep : Z) (s : list Z) : str_split sep s <> [].
Proof.
  destruct s as [|c s]; cbn; [discriminate|].
  destruct (c =? sep); [discriminate|].
  destruct (str_split sep s); discriminate.
Qed.

Lemma str_split_join (sep : Z) (s : list Z) :
  join [sep] (str_split sep s) = s.
Proof.
  induction s as [|c s IH]; [reflexivity|].
  cbn [str_split]. pose proof (str_split_not_nil sep s) as Hn.
  destruct (Z.eqb_spec c sep) as [->|Hc];
    destruct (str_split sep s) as [|item items]; try congruence.
  - rewrite join_cons, IH. reflexivity.
  - destruct items as [|i2 items].
    + cbn [join] in *. now subst.
    + rewrite <- IH, !join_cons. reflexivity.
Qed.

Lemma str_split_pieces (sep : Z) (s : list Z) :
  Forall (fun piece => str_contains sep piece = false) (str_split sep s).
Proof.
  induction s as [|c s IH]; [repeat constructor|].
  cbn [str_split]. destruct (Z.eqb_spec c sep) as [->|Hc].
  - constructor; [reflexivity | exact IH].
  - destruct (str_split sep s) as [|item items]; [repeat constructor|].
    + cbn. destruct (Z.eqb_spec sep c); [congruence | reflexivity].
    + inversion IH as [|? ? Hi Hs]; subst. constructor; [|exact Hs].
      cbn. destruct (Z.eqb_spec sep c); [congruence | exact Hi].
Qed.

Lemma str_split_length (sep : Z) (s : list Z) :
  List.length (str_split sep s) = S (count_occ Z.eq_dec s sep).
Proof.
  induction s as [|c s IH]; [reflexivity|].
  cbn [str_split count_occ]. pose proof (str_split_not_nil sep s) as Hn.
  destruct (Z.eqb_spec c sep) as [->|Hc].
  - destruct (Z.eq_dec sep sep); [|congruence]. cbn. now rewrite IH.
  - destruct (Z.eq_dec c sep); [congruence|].
    destruct (str_split sep s); [congruence | exact IH].
Qed.

Lemma str_split_no_sep (sep : Z) (s : list Z) :
  str_contains sep s = false -> str_split sep s = [s].
Proof.
  induction s as [|c s IH]; [reflexivity|].
  cbn. destruct (Z.eqb_spec sep c) as [->|Hc]; [discriminate|].
  intros H. rewrite (IH H).
  destruct (Z.eqb_spec c sep); [congruence | reflexivity].
Qed.

Lemma str_split_app (sep : Z) (piece rest : list Z) :
  str_contains sep piece = false ->
  str_split sep (piece ++ sep :: rest) = piece :: str_split sep rest.
Proof.
  induction piece as [|c piece IH]; cbn.
  - now rewrite Z.eqb_refl.
  - destruct (Z.eqb_spec sep c) as [->|Hc]; [discriminate|].
    intros H. rewrite (IH H).
    destruct (Z.eqb_spec c sep); [congruence | reflexivity].
Qed.

(** Splitting what was joined gives the pieces back. *)
Lemma str_split_of_join (sep : Z) (pieces : list (list Z)) :
  pieces <> [] ->
  Forall (fun piece => str_contains sep piece = false) pieces ->
  str_split sep (join [sep] pieces) = pieces.
Proof.
  intros Hn H. induction H as [|p ps Hp Hps IH]; [congruence|].
  destruct ps as [|q ps].
  - cbn [join]. now apply str_split_no_sep.
  - rewrite join_cons. cbn [app]. rewrite str_split_app by exact Hp.
    f_equal. apply IH. discriminate.
Qed.

Lemma str_contains_join (sep : Z) (p q : list Z) (ps : list (list Z)) :
  str_contains sep (join [sep] (p :: q :: ps)) = true.
Proof.
  rewrite join_cons. unfold str_contains. rewrite existsb_app.
  cbn. rewrite Z.eqb_refl. apply orb_true_r.
Qed.

(** X6. [parse_multi_columns] cuts at every ['|'] when there is one, otherwise
    at every [',']: the pieces joined with the separator are the input,
    no piece holds the separator, and there is one piece more than there
    are separators (so never no piece). *)
Theorem parse_multi_columns_pieces (columns : list Z) :
  let sep := if str_contains 124 columns then 124 else 44 in
  join [sep] (parse_multi_columns columns) = columns /\
  Forall (fun piece => str_contains sep piece = false)
    (parse_multi_columns columns) /\
  List.length (parse_multi_columns columns)
  = S (count_occ Z.eq_dec columns sep).
Proof.
  unfold parse_multi_columns. destruct (str_contains 124 columns); cbv zeta;
    (split; [apply str_split_join|]);
    (split; [apply str_split_pieces | apply str_split_length]).
Qed.

(** X7. Column names joined with ['|'] come back from [parse_multi_columns],
    commas inside the names included, as long as no name holds a ['|']
    and a single name holds no [',']. *)
Theorem parse_multi_columns_of_join (names : list (list Z)) :
  names <> [] ->
  Forall (fun name => str_contains 124 name = false) names ->
  (2 <= List.length names)%nat \/
  Forall (fun name => str_contains 44 name = false) names ->
  parse_multi_columns (join [124] names) = names.
Proof.
  intros Hn Hbar Hc. unfold parse_multi_columns.
  destruct names as [|p [|q ps]]; [congruence| |].
  - cbn [join]. inversion Hbar as [|? ? Hp _]; subst. rewrite Hp.
    destruct Hc as [Hc|Hc]; [cbn in Hc; lia|].
    inversion Hc; subst. now apply str_split_no_sep.
  - rewrite str_contains_join. now apply str_split_of_join.
Qed.

Lemma parse_multi_columns_of_join_witness :
  [lit "title"; lit "a,b"] <> [] /\
  parse_multi_columns (lit "title|a,b") = [lit "title"; lit "a,b"].
Proof.
  split; [discriminate|].
  apply (parse_multi_columns_of_join [lit "title"; lit "a,b"]).
  - discriminate.
  - repeat constructor.
  - left. cbn. lia.
Defined.

Lemma str_contains_cons (c x : Z) (s : list Z) :
  str_contains c (x :: s) = (c =? x) || str_contains c s.
Proof. reflexivity. Qed.

Lemma remove_spaces_app (a b : list Z) :
  remove_spaces (a ++ b) = remove_spaces a ++ remove_spaces b.
Proof. apply filter_app. Qed.

Lemma remove_spaces_none (s : list Z) :
  str_contains 32 s = false -> remove_spaces s = s.
Proof.
  unfold remove_spaces, str_contains.
  induction s as [|c s IH]; [reflexivity|]. cbn [filter existsb].
  destruct (Z.eqb_spec 32 c) as [<-|Hc]; [discriminate|].
  intros H. destruct (Z.eqb_spec c 32); [congruence|].
  cbn [negb orb] in *. now rewrite IH.
Qed.

Lemma remove_spaces_clean (s : list Z) :
  str_contains 32 (remove_spaces s) = false.
Proof.
  unfold remove_spaces, str_contains.
  induction s as [|c s IH]; [reflexivity|]. cbn [filter].
  destruct (Z.eqb_spec c 32) as [->|Hc]; cbn [negb]; [exact IH|].
  cbn [existsb]. destruct (Z.eqb_spec 32 c); [congruence | exact IH].
Qed.

(** What [strip] removes would go with the spaces anyway, when the only
    white space around is spaces. *)
Lemma remove_spaces_lstrip (s : list Z) :
  Forall (fun c => is_space c = true -> c = 32) s ->
  remove_spaces (lstrip s) = remove_spaces s.
Proof.
  unfold remove_spaces.
  induction 1 as [|c s Hc _ IH]; [reflexivity|].
  cbn [lstrip]. destruct (is_space c) eqn:E; [|reflexivity].
  rewrite (Hc eq_refl). cbn [filter Z.eqb Pos.eqb negb]. exact IH.
Qed.

Lemma rstrip_keeps (s : list Z) :
  Forall (fun c => is_space c = true -> c = 32) s ->
  Forall (fun c => is_space c = true -> c = 32) (rstrip s) /\
  remove_spaces (rstrip s) = remove_spaces s.
Proof.
  unfold remove_spaces.
  induction 1 as [|c s Hc Hs [IH1 IH2]]; [split; [constructor|reflexivity]|].
  cbn [rstrip]. destruct (rstrip s) as [|k kept] eqn:E.
  - destruct (is_space c) eqn:Es.
    + split; [constructor|]. rewrite (Hc eq_refl).
      cbn [filter Z.eqb Pos.eqb negb]. now rewrite <- IH2.
    + split; [repeat constructor; congruence|].
      cbn [filter]. now rewrite <- IH2.
  - split; [constructor; assumption|].
    cbn [filter] in *. now rewrite IH2.
Qed.

Lemma lstrip_keeps (s : list Z) (P : Z -> Prop) :
  Forall P s -> Forall P (lstrip s).
Proof.
  induction 1 as [|c s Hc Hs IH]; [constructor|].
  cbn. destruct (is_space c); [exact IH | now constructor].
Qed.

Lemma remove_spaces_strip (s : list Z) :
  Forall (fun c => is_space c = true -> c = 32) s ->
  remove_spaces (strip s) = remove_spaces s.
Proof.
  intros H. unfold strip.
  rewrite (proj2 (rstrip_keeps _ (lstrip_keeps _ _ H))).
  now apply remove_spaces_lstrip.
Qed.

Lemma str_split_pieces_clean (sep c : Z) (s : list Z) :
  str_contains c s = false ->
  Forall (fun piece => str_contains c piece = false) (str_split sep s).
Proof.
  induction s as [|x s IH]; [repeat constructor|].
  cbn [str_contains existsb]. intros H. apply orb_false_iff in H as [Hx Hs].
  specialize (IH Hs). cbn [str_split].
  destruct (x =? sep); [constructor; [reflexivity | exact IH]|].
  destruct (str_split sep s) as [|item items]; [repeat constructor|].
  - cbn. now rewrite Hx.
  - inversion IH as [|? ? Hi His]; subst. constructor; [|exact His].
    cbn. now rewrite Hx.
Qed.

(** X8. [comma_separated_string_to_list] returns the pieces between the commas
    of the input without its spaces and without the white space around
    it: joined with [','] they are that text, and no piece holds a space
    or a comma. *)
Theorem comma_separated_pieces (s : list Z) :
  join [44] (comma_separated_string_to_list s) = remove_spaces (strip s) /\
  Forall (fun piece => str_contains 32 piece = false /\
                       str_contains 44 piece = false)
    (comma_separated_string_to_list s) /\
  comma_separated_string_to_list s <> [].
Proof.
  unfold comma_separated_string_to_list.
  split; [apply str_split_join|]. split; [|apply str_split_not_nil].
  pose proof (str_split_pieces 44 (remove_spaces (strip s))) as H1.
  pose proof (str_split_pieces_clean 44 32 _
                (remove_spaces_clean (strip s))) as H2.
  induction (str_split 44 (remove_spaces (strip s))) as [|p ps IH];
    [constructor|].
  inversion H1; inversion H2; subst. constructor; [now split | now apply IH].
Qed.

Lemma remove_spaces_join (names : list (list Z)) :
  Forall (fun name => str_contains 32 name = false) names ->
  remove_spaces (join (lit ", ") names) = join [44] names.
Proof.
  induction 1 as [|p ps Hp Hps IH]; [reflexivity|].
  destruct ps as [|q ps].
  - cbn [join]. now apply remove_spaces_none.
  - rewrite !join_cons, !remove_spaces_app, IH.
    rewrite (remove_spaces_none p Hp). reflexivity.
Qed.

Lemma join_chars (P : Z -> Prop) (sep : list Z) (names : list (list Z)) :
  Forall P sep -> Forall (Forall P) names -> Forall P (join sep names).
Proof.
  intros Hs. induction 1 as [|p ps Hp Hps IH]; [constructor|].
  destruct ps as [|q ps]; [exact Hp|].
  rewrite join_cons. apply Forall_app. split; [exact Hp|].
  apply Forall_app. split; [exact Hs | exact IH].
Qed.

(** X9. Names written with [", "] between them come back from
    [comma_separated_string_to_list], when no name holds white space or a
    comma. *)
Theorem comma_separated_of_join (names : list (list Z)) :
  names <> [] ->
  Forall (Forall (fun c => is_space c = false /\ c <> 44)) names ->
  comma_separated_string_to_list (join (lit ", ") names) = names.
Proof.
  intros Hn H. unfold comma_separated_string_to_list.
  assert (Hsp : Forall (fun name => str_contains 32 name = false) names).
  { eapply Forall_impl; [|exact H]. intros name Hname.
    induction Hname as [|c name [Hc _] _ IH]; [reflexivity|].
    rewrite str_contains_cons.
    destruct (Z.eqb_spec 32 c) as [<-|]; [discriminate Hc | exact IH]. }
  assert (Hco : Forall (fun name => str_contains 44 name = false) names).
  { eapply Forall_impl; [|exact H]. intros name Hname.
    induction Hname as [|c name [_ Hc] _ IH]; [reflexivity|].
    rewrite str_contains_cons.
    destruct (Z.eqb_spec 44 c); [congruence | exact IH]. }
  rewrite remove_spaces_strip.
  - rewrite remove_spaces_join by exact Hsp.
    now apply str_split_of_join.
  - apply join_chars.
    + constructor; [intros E; vm_compute in E; discriminate E|].
      constructor; [reflexivity | constructor].
    + eapply Forall_impl; [|exact H]. intros name Hname.
      eapply Forall_impl; [|exact Hname]. intros c [Hc _] Hs. congruence.
Qed.

Lemma comma_separated_of_join_witness :
  [lit "id"; lit "title"; lit "url"] <> [] /\
  comma_separated_string_to_list (lit "id, title, url")
  = [lit "id"; lit "title"; lit "url"].
Proof.
  split; [discriminate|].
  apply (comma_separated_of_join [lit "id"; lit "title"; lit "url"]).
  - discriminate.
  - repeat constructor; discriminate.
Defined.

(* ===================================================================== *)
(** ** More on the text codec *)
(* ===================================================================== *)

(** X1. Two texts with the same encoding are the same text. *)
Theorem encode_injective (x y : list Z) (e : list Z) :
  is_text x -> is_text y ->
  encode_text_for_ai_search (PStr x) = Ok e ->
  encode_text_for_ai_search (PStr y) = Ok e ->
  x = y.
Proof.
  cbn [encode_text_for_ai_search]. intros Hx Hy Ex Ey.
  rewrite <- (unquote_quote x e Hx Ex). now apply unquote_quote.
Qed.

Lemma encode_injective_witness :
  is_text (lit "a b") /\
  encode_text_for_ai_search (PStr (lit "a b")) = Ok (lit "a%20b") /\
  lit "a b" = lit "a b".
Proof.
  assert (H : is_text (lit "a b")).
  { repeat constructor; cbn; intros; discriminate. }
  split; [exact H|]. split; [reflexivity|].
  exact (encode_injective (lit "a b") (lit "a b") (lit "a%20b") H H
           eq_refl eq_refl).
Defined.

(** X2. Decoding never makes a text longer. *)
Theorem decode_never_longer (x d : list Z) :
  decode_text_from_ai_search (PStr x) = Ok d ->
  (List.length d <= List.length x)%nat.
Proof.
  cbn [decode_text_from_ai_search]. intros [= <-]. unfold unquote.
  destruct (negb (has_percent x)); [lia|].
  rewrite <- (ascii_runs_concat x) at 2. apply unquote_runs_length.
Qed.

Lemma decode_never_longer_witness :
  decode_text_from_ai_search (PStr (lit "a%20b%zz")) = Ok (lit "a b%zz") /\
  (List.length (lit "a b%zz") <= List.length (lit "a%20b%zz"))%nat.
Proof.
  split; [reflexivity|].
  exact (decode_never_longer (lit "a%20b%zz") (lit "a b%zz") eq_refl).
Defined.

Lemma utf8_encode_safe (x : list Z) :
  Forall (fun c => ALWAYS_SAFE c = true) x -> utf8_encode x = Some x.
Proof.
  induction 1 as [|c x Hc _ IH]; [reflexivity|].
  cbn [utf8_encode]. rewrite IH. unfold utf8_encode_char.
  assert (c < 0x80).
  { pose proof (safe_or_percent_ascii c (or_introl Hc)) as A.
    unfold is_ascii in A. apply andb_true_iff in A as [_ A].
    apply Z.leb_le in A. lia. }
  destruct (Z.ltb_spec c 0x80); [reflexivity | lia].
Qed.

Lemma quoted_percent_escape (bs : list Z) :
  Forall is_byte bs ->
  str_contains 37 (flat_map quoter bs) = true ->
  has_escape (flat_map quoter bs) = true.
Proof.
  induction 1 as [|b bs Hb _ IH]; [discriminate|].
  cbn [flat_map]. unfold quoter at 1 3.
  destruct (ALWAYS_SAFE b) eqn:E.
  - cbn [app]. rewrite str_contains_cons.
    destruct (Z.eqb_spec 37 b) as [<-|_]; [discriminate E|].
    intros H. rewrite has_escape_cons, (IH H). apply orb_true_r.
  - intros _. cbn [app]. rewrite has_escape_cons. cbn [escape_at_head].
    unfold is_byte in Hb.
    assert (H1 : 0 <= b / 16 < 16) by (Z.div_mod_to_equations; lia).
    assert (H2 : 0 <= b mod 16 < 16) by (Z.div_mod_to_equations; lia).
    rewrite (proj1 (hex_upper_hexdig _ H1)), (proj1 (hex_upper_hexdig _ H2)).
    reflexivity.
Qed.

Lemma no_percent_safe (e : list Z) :
  Forall (fun c => ALWAYS_SAFE c = true \/ c = 37) e ->
  str_contains 37 e = false ->
  Forall (fun c => ALWAYS_SAFE c = true) e.
Proof.
  induction 1 as [|c e Hc _ IH]; [constructor|].
  rewrite str_contains_cons. intros H. apply orb_false_iff in H as [H1 H2].
  constructor; [|now apply IH].
  destruct Hc as [Hc | ->]; [exact Hc | discriminate H1].
Qed.

(** X3. A text is its own encoding exactly when it is made of unreserved
    characters (letters, digits, [_.-~]) only. *)
Theorem encode_identity_iff (x : list Z) :
  is_text x ->
  (encode_text_for_ai_search (PStr x) = Ok x
   <-> Forall (fun c => ALWAYS_SAFE c = true) x).
Proof.
  intros Hx. cbn [encode_text_for_ai_search]. split.
  - intros E. pose proof (unquote_quote x x Hx E) as U.
    apply unquote_fixed_iff in U.
    unfold quote in E. destruct x as [|c x]; [constructor|].
    destruct (utf8_encode_text _ Hx) as (bs & Eb & Hb). rewrite Eb in E.
    injection E as E.
    apply no_percent_safe.
    + rewrite <- E. now apply quote_from_bytes_chars.
    + destruct (str_contains 37 (c :: x)) eqn:P; [|reflexivity].
      rewrite <- E, quote_from_bytes_flat_map in P.
      apply (quoted_percent_escape bs Hb) in P.
      rewrite <- quote_from_bytes_flat_map, E in P. congruence.
  - intros Hs. unfold quote. destruct x as [|c x]; [reflexivity|].
    rewrite (utf8_encode_safe _ Hs). unfold quote_from_bytes.
    assert (F : forallb ALWAYS_SAFE (c :: x) = true)
      by (apply forallb_forall; apply Forall_forall; exact Hs).
    now rewrite F.
Qed.

Lemma encode_identity_iff_witness :
  is_text (lit "report_2024-v1.txt~") /\
  encode_text_for_ai_search (PStr (lit "report_2024-v1.txt~"))
  = Ok (lit "report_2024-v1.txt~").
Proof.
  assert (H : is_text (lit "report_2024-v1.txt~")).
  { repeat constructor; cbn; intros; discriminate. }
  split; [exact H|].
  apply (proj2 (encode_identity_iff _ H)). repeat constructor.
Defined.

Lemma safe_or_percent_scalar (c : Z) :
  ALWAYS_SAFE c = true \/ c = 37 -> is_scalar c.
Proof.
  intros H. pose proof (safe_or_percent_ascii c H) as A.
  unfold is_ascii in A. apply andb_true_iff in A as [A1 A2].
  apply Z.leb_le in A1, A2. unfold is_scalar, is_code_point, is_surrogate.
  split; [lia|]. destruct (Z.leb_spec 0xD800 c); [lia | reflexivity].
Qed.

(** X4. An encoding is itself a text, so a text encoded twice is recovered by
    decoding twice. *)
Theorem encode_twice_decode_twice (x : list Z) :
  is_text x ->
  exists e1 e2,
    encode_text_for_ai_search (PStr x) = Ok e1 /\
    encode_text_for_ai_search (PStr e1) = Ok e2 /\
    decode_text_from_ai_search (PStr e2) = Ok e1 /\
    decode_text_from_ai_search (PStr e1) = Ok x.
Proof.
  intros Hx. cbn [encode_text_for_ai_search decode_text_from_ai_search].
  destruct (quote_text x Hx) as (e1 & E1 & S1).
  assert (H1 : is_text e1)
    by (eapply Forall_impl; [apply safe_or_percent_scalar | exact S1]).
  destruct (quote_text e1 H1) as (e2 & E2 & _).
  exists e1, e2. repeat split; try assumption; f_equal;
    now apply unquote_quote.
Qed.

Lemma encode_twice_decode_twice_witness :
  is_text (lit "50% off") /\
  encode_text_for_ai_search (PStr (lit "50% off")) = Ok (lit "50%25%20off") /\
  encode_text_for_ai_search (PStr (lit "50%25%20off"))
  = Ok (lit "50%2525%2520off") /\
  exists e1 e2,
    encode_text_for_ai_search (PStr (lit "50% off")) = Ok e1 /\
    encode_text_for_ai_search (PStr e1) = Ok e2 /\
    decode_text_from_ai_search (PStr e2) = Ok e1 /\
    decode_text_from_ai_search (PStr e1) = Ok (lit "50% off").
Proof.
  assert (H : is_text (lit "50% off")).
  { repeat constructor; cbn; intros; discriminate. }
  split; [exact H|]. split; [reflexivity|]. split; [reflexivity|].
  exact (encode_twice_decode_twice _ H).
Defined.

Lemma decode_non_text_raises (v : pyval) :
  (forall s, v <> PStr s) ->
  exists e, decode_text_from_ai_search v = Raise e.
Proof.
  intros H. destruct v; try (eexists; reflexivity);
    cbn [decode_text_from_ai_search py_contains bind].
  - now destruct (H s).
  - destruct (existsb _ l); eexists; reflexivity.
  - destruct (dict_has d [37]); eexists; reflexivity.
Qed.

(** X5. A value that is neither a [str] nor bytes ([None], a boolean, an
    integer, a list, a dictionary, a dataclass instance, another object
    that is not bytes-like: the values of [pyval] other than [PStr]) is
    refused by both functions: the encoder raises [TypeError], the decoder
    [TypeError] or [AttributeError], [TypeError] for [None]; neither
    returns.  Nothing is said of [bytes], which [quote] and [unquote]
    accept. *)
Theorem codec_refuses_non_text (v : pyval) :
  (forall s, v <> PStr s) ->
  encode_text_for_ai_search v = Raise TypeError /\
  (decode_text_from_ai_search v = Raise TypeError \/
   decode_text_from_ai_search v = Raise AttributeError) /\
  (v = PNone -> decode_text_from_ai_search v = Raise TypeError).
Proof.
  intros H. destruct v; try (now (split; [|split]; [reflexivity | left | ]));
    cbn [encode_text_for_ai_search decode_text_from_ai_search py_contains bind].
  - now destruct (H s).
  - split; [reflexivity|]. split; [|discriminate].
    destruct (existsb _ l); [now left | now right].
  - split; [reflexivity|]. split; [|discriminate].
    destruct (dict_has d [37]); [now left | now right].
Qed.

Lemma codec_refuses_non_text_witness :
  (forall s, PNone <> PStr s) /\
  encode_text_for_ai_search PNone = Raise TypeError /\
  decode_text_from_ai_search PNone = Raise TypeError.
Proof.
  assert (H : forall s, PNone <> PStr s) by discriminate.
  split; [exact H|].
  destruct (codec_refuses_non_text PNone H) as (E & _ & D).
  split; [exact E | exact (D eq_refl)].
Defined.

(* ===================================================================== *)
(** ** The JSON encoder of the module *)
(* ===================================================================== *)

(** X10. Where plain [json.dumps] serializes a value, the module's encoder
    gives the same text. *)
Theorem json_encoder_agrees (v : pyval) (s : list Z) :
  json_dumps false v = JOk s -> json_dumps true v = JOk s.
Proof.
  revert s. induction v as [ | b | z | t | l IHl | d IHd | cls d IHd | cls]
    using pyval_nested_ind; intros s; try (intros H; exact H).
  - cbn [json_dumps].
    match goal with
    | |- jbind (?f l) _ = _ -> jbind (?g l) _ = _ =>
        assert (E : forall ss, f l = JOk ss -> g l = JOk ss)
    end.
    { induction IHl as [|x l Hx _ IH]; [trivial|]. intros ss.
      destruct (json_dumps false x) as [sx|c] eqn:Ex; [|discriminate].
      rewrite (Hx sx eq_refl). cbn [jbind].
      match goal with
      | |- jbind ?a _ = _ -> jbind ?b _ = _ =>
          destruct a as [sl|c] eqn:El; [|discriminate];
          rewrite (IH sl eq_refl)
      end.
      trivial. }
    match goal with
    | |- jbind ?a _ = _ -> _ =>
        destruct a as [ss|c] eqn:Ea; [|discriminate]; rewrite (E ss eq_refl)
    end.
    trivial.
  - cbn [json_dumps].
    match goal with
    | |- jbind (?f d) _ = _ -> jbind (?g d) _ = _ =>
        assert (E : forall ss, f d = JOk ss -> g d = JOk ss)
    end.
    { induction IHd as [|[k x] d Hx _ IH]; [trivial|]. intros ss.
      cbn [snd] in Hx.
      destruct (json_dumps false x) as [sx|c] eqn:Ex; [|discriminate].
      rewrite (Hx sx eq_refl). cbn [jbind].
      match goal with
      | |- jbind ?a _ = _ -> jbind ?b _ = _ =>
          destruct a as [sl|c] eqn:El; [|discriminate];
          rewrite (IH sl eq_refl)
      end.
      trivial. }
    match goal with
    | |- jbind ?a _ = _ -> _ =>
        destruct a as [ss|c] eqn:Ea; [|discriminate]; rewrite (E ss eq_refl)
    end.
    trivial.
  - discriminate.
Qed.

Lemma json_encoder_agrees_witness :
  json_dumps false (PDict [(lit "citations", PList [PInt 1; PNone])])
  = JOk ([123; 34] ++ lit "citations" ++ [34; 58; 32]
         ++ lit "[1, null]" ++ [125]) /\
  json_dumps true (PDict [(lit "citations", PList [PInt 1; PNone])])
  = JOk ([123; 34] ++ lit "citations" ++ [34; 58; 32]
         ++ lit "[1, null]" ++ [125]).
Proof.
  split; [reflexivity|].
  exact (json_encoder_agrees
           (PDict [(lit "citations", PList [PInt 1; PNone])])
           ([123; 34] ++ lit "citations" ++ [34; 58; 32]
            ++ lit "[1, null]" ++ [125]) eq_refl).
Defined.

(** In the model the two serializations are the same computation. *)
Lemma json_dumps_asdict (v : pyval) :
  json_dumps true v = json_dumps false (asdict v).
Proof.
  induction v as [ | b | z | t | l IHl | d IHd | cls d IHd | cls]
    using pyval_nested_ind; try reflexivity.
  - cbn [json_dumps asdict]. f_equal.
    induction IHl as [|x l Hx _ IH]; [reflexivity|].
    cbn [map]. rewrite Hx, IH. reflexivity.
  - cbn [json_dumps asdict]. f_equal.
    induction IHd as [|[k x] d Hx _ IH]; [reflexivity|].
    cbn [snd] in Hx. rewrite Hx, IH. reflexivity.
  - cbn [json_dumps asdict]. f_equal.
    induction IHd as [|[k x] d Hx _ IH]; [reflexivity|].
    cbn [snd] in Hx. rewrite Hx, IH. reflexivity.
Qed.

(** X11. The texts the module's encoder returns: it serializes a value to
    a text exactly when plain [json.dumps] serializes to that text the
    value in which every dataclass instance, at any depth, is replaced by
    the dictionary of its fields.  (Nothing is said of which exception
    comes out when the serialization fails.) *)
Theorem json_encoder_asdict (v : pyval) (s : list Z) :
  json_dumps true v = JOk s <-> json_dumps false (asdict v) = JOk s.
Proof. now rewrite json_dumps_asdict. Qed.

Lemma json_encoder_asdict_witness :
  json_dumps true
    (PList [PData (lit "Delta") [(lit "x", PData (lit "Part") [])]])
  = JOk (lit "[{" ++ [34; 120; 34] ++ lit ": {}}]") /\
  json_dumps false
    (PList [PDict [(lit "x", PDict [])]])
  = JOk (lit "[{" ++ [34; 120; 34] ++ lit ": {}}]").
Proof.
  split; [|reflexivity].
  exact (proj2 (json_encoder_asdict
                  (PList [PData (lit "Delta")
                            [(lit "x", PData (lit "Part") [])]])
                  (lit "[{" ++ [34; 120; 34] ++ lit ": {}}]")) eq_refl).
Defined.

(** *** The serialized text is printable ASCII *)

Lemma hex_lower_printable (n : Z) : 0 <= n < 16 -> printable (hex_lower n).
Proof.
  unfold printable, hex_lower. intros H. destruct (Z.ltb_spec n 10); lia.
Qed.

Lemma u_escape_printable (n : Z) :
  0 <= n < 65536 -> Forall printable (u_escape n).
Proof.
  intros H. unfold u_escape.
  repeat (constructor; [first [apply hex_lower_printable;
                                Z.div_mod_to_equations; lia
                               | unfold printable; lia]|]).
  constructor.
Qed.

Lemma surrogate_half_bounds (base x : Z) :
  base = 0xD800 \/ base = 0xDC00 ->
  0 <= Z.lor base (Z.land x 0x3FF) < 65536.
Proof.
  intros Hb.
  change 0x3FF with (Z.ones 10). rewrite Z.land_ones by lia.
  pose proof (Z.mod_pos_bound x (2 ^ 10) ltac:(lia)) as Hm.
  set (y := x mod 2 ^ 10) in *.
  assert (Hy : 0 <= y < 1024) by (change (2 ^ 10) with 1024 in Hm; lia).
  split.
  - apply Z.lor_nonneg. lia.
  - assert (Hp : 0 < Z.lor base y).
    { assert (Hn : 0 <= Z.lor base y) by (apply Z.lor_nonneg; lia).
      assert (Z.lor base y <> 0); [|lia].
      intros E. apply Z.lor_eq_0_iff in E. lia. }
    change 65536 with (2 ^ 16). apply Z.log2_lt_pow2; [exact Hp|].
    rewrite Z.log2_lor by lia.
    assert (Z.log2 base = 15) by (destruct Hb as [-> | ->]; reflexivity).
    assert (Z.log2 y < 10).
    { destruct (Z.eq_dec y 0) as [-> | Hne]; [cbn; lia|].
      apply Z.log2_lt_pow2; [lia|]. change (2 ^ 10) with 1024. lia. }
    lia.
Qed.

Lemma escape_ascii_printable (c : Z) :
  is_code_point c -> Forall printable (escape_ascii c).
Proof.
  unfold is_code_point. intros Hc. unfold escape_ascii.
  destruct (c =? 92); [repeat constructor; unfold printable; lia|].
  destruct (c =? 34); [repeat constructor; unfold printable; lia|].
  destruct ((32 <=? c) && (c <=? 126)) eqn:E.
  { apply andb_true_iff in E as [E1 E2]. apply Z.leb_le in E1, E2.
    repeat constructor; unfold printable; lia. }
  repeat match goal with
  | |- context [Z.eqb c ?b] =>
      destruct (Z.eqb c b);
      [repeat constructor; unfold printable; lia|]
  end.
  destruct (Z.ltb_spec c 0x10000).
  - apply u_escape_printable. lia.
  - cbv zeta. apply Forall_app. split; apply u_escape_printable;
      apply surrogate_half_bounds; auto.
Qed.

Lemma encode_basestring_ascii_printable (s : list Z) :
  Forall is_code_point s -> Forall printable (encode_basestring_ascii s).
Proof.
  intros H. unfold encode_basestring_ascii.
  apply Forall_app. split; [repeat constructor; unfold printable; lia|].
  apply Forall_app. split; [|repeat constructor; unfold printable; lia].
  induction H as [|c s Hc _ IH]; [constructor|].
  cbn [flat_map]. apply Forall_app. split; [|exact IH].
  now apply escape_ascii_printable.
Qed.

Lemma string_of_uint_printable (d : Decimal.uint) :
  Forall printable (lit (NilEmpty.string_of_uint d)).
Proof.
  induction d; cbn [NilEmpty.string_of_uint]; try constructor;
    try exact IHd; unfold printable; cbn; lia.
Qed.

Lemma repr_int_printable (z : Z) : Forall printable (repr_int z).
Proof.
  unfold repr_int, NilZero.string_of_int, NilZero.string_of_uint.
  destruct (Z.to_int z) as [d|d].
  - destruct d; try apply string_of_uint_printable.
    repeat constructor; unfold printable; cbn; lia.
  - change (lit (String "-" ?s)) with (45 :: lit s).
    constructor; [unfold printable; lia|].
    destruct d; try apply string_of_uint_printable.
    repeat constructor; unfold printable; cbn; lia.
Qed.

Lemma join_printable (parts : list (list Z)) :
  Forall (Forall printable) parts -> Forall printable (join [44; 32] parts).
Proof.
  apply join_chars. repeat constructor; unfold printable; lia.
Qed.

Lemma bracket_printable (l r : Z) (parts : list (list Z)) :
  printable l -> printable r -> Forall (Forall printable) parts ->
  Forall printable ([l] ++ join [44; 32] parts ++ [r]).
Proof.
  intros Hl Hr H.
  apply Forall_app. split; [constructor; [exact Hl | constructor]|].
  apply Forall_app. split; [now apply join_printable|].
  constructor; [exact Hr | constructor].
Qed.

Lemma json_dumps_printable_all (dataclasses : bool) (v : pyval) (s : list Z) :
  strs_ok v -> json_dumps dataclasses v = JOk s -> Forall printable s.
Proof.
  revert s. induction v as [ | b | z | t | l IHl | d IHd | cls d IHd | cls]
    using pyval_nested_ind; intros s Hok.
  - intros [= <-]. repeat constructor; unfold printable; cbn; lia.
  - destruct b; intros [= <-]; repeat constructor; unfold printable; cbn; lia.
  - intros [= <-]. apply repr_int_printable.
  - intros [= <-]. now apply encode_basestring_ascii_printable.
  - cbn [json_dumps].
    match goal with
    | |- jbind (?f l) _ = _ -> _ =>
        assert (E : forall ss, f l = JOk ss -> Forall (Forall printable) ss)
    end.
    { cbn [strs_ok] in Hok. induction IHl as [|x l Hx _ IH]; intros ss.
      - intros [= <-]. constructor.
      - destruct Hok as [Hxo Hlo].
        destruct (json_dumps dataclasses x) as [sx|c] eqn:Ex; [|discriminate].
        cbn [jbind].
        match goal with
        | |- jbind ?a _ = _ -> _ => destruct a as [sl|c] eqn:El;
                                    [|discriminate]
        end.
        intros [= <-]. constructor; [now apply Hx | now apply IH]. }
    match goal with
    | |- jbind ?a _ = _ -> _ => destruct a as [ss|c]; [|discriminate]
    end.
    intros [= <-]. apply bracket_printable; try (unfold printable; lia).
    now apply E.
  - cbn [json_dumps].
    match goal with
    | |- jbind (?f d) _ = _ -> _ =>
        assert (E : forall ss, f d = JOk ss -> Forall (Forall printable) ss)
    end.
    { cbn [strs_ok] in Hok. induction IHd as [|[k x] d Hx _ IH]; intros ss.
      - intros [= <-]. constructor.
      - destruct Hok as (Hk & Hxo & Hdo). cbn [snd] in Hx.
        destruct (json_dumps dataclasses x) as [sx|c] eqn:Ex; [|discriminate].
        cbn [jbind].
        match goal with
        | |- jbind ?a _ = _ -> _ => destruct a as [sl|c] eqn:El;
                                    [|discriminate]
        end.
        assert (P : Forall printable
                      (encode_basestring_ascii k ++ [58; 32] ++ sx)).
        { apply Forall_app. split;
            [now apply encode_basestring_ascii_printable|].
          apply Forall_app. split;
            [repeat constructor; unfold printable; lia
            | exact (Hx _ Hxo eq_refl)]. }
        intros [= <-]. constructor; [exact P | exact (IH Hdo _ eq_refl)]. }
    match goal with
    | |- jbind ?a _ = _ -> _ => destruct a as [ss|c]; [|discriminate]
    end.
    intros [= <-]. apply bracket_printable; try (unfold printable; lia).
    now apply E.
  - cbn [json_dumps]. destruct dataclasses; [|discriminate].
    match goal with
    | |- jbind (?f d) _ = _ -> _ =>
        assert (E : forall ss, f d = JOk ss -> Forall (Forall printable) ss)
    end.
    { cbn [strs_ok] in Hok. induction IHd as [|[k x] d Hx _ IH]; intros ss.
      - intros [= <-]. constructor.
      - destruct Hok as (Hk & Hxo & Hdo). cbn [snd] in Hx.
        destruct (json_dumps true x) as [sx|c] eqn:Ex; [|discriminate].
        cbn [jbind].
        match goal with
        | |- jbind ?a _ = _ -> _ => destruct a as [sl|c] eqn:El;
                                    [|discriminate]
        end.
        assert (P : Forall printable
                      (encode_basestring_ascii k ++ [58; 32] ++ sx)).
        { apply Forall_app. split;
            [now apply encode_basestring_ascii_printable|].
          apply Forall_app. split;
            [repeat constructor; unfold printable; lia
            | exact (Hx _ Hxo eq_refl)]. }
        intros [= <-]. constructor; [exact P | exact (IH Hdo _ eq_refl)]. }
    match goal with
    | |- jbind ?a _ = _ -> _ => destruct a as [ss|c]; [|discriminate]
    end.
    intros [= <-]. apply bracket_printable; try (unfold printable; lia).
    now apply E.
  - discriminate.
Qed.

(** Whatever the encoder returns is printable ASCII: no raw newline, no
    control character, no character above ['~'] ([ensure_ascii]). *)
Theorem json_dumps_printable (dataclasses : bool) (v : pyval) (s : list Z) :
  strs_ok v -> json_dumps dataclasses v = JOk s -> Forall printable s.
Proof. apply json_dumps_printable_all. Qed.

Lemma json_dumps_printable_witness :
  strs_ok (PDict [(lit "line", PStr [97; 10; 98; 233])]) /\
  json_dumps true (PDict [(lit "line", PStr [97; 10; 98; 233])])
  = JOk ([123; 34] ++ lit "line" ++ [34; 58; 32; 34; 97; 92]
         ++ lit "nb" ++ [92] ++ lit "u00e9" ++ [34; 125]) /\
  Forall printable ([123; 34] ++ lit "line" ++ [34; 58; 32; 34; 97; 92]
                    ++ lit "nb" ++ [92] ++ lit "u00e9" ++ [34; 125]).
Proof.
  assert (H : strs_ok (PDict [(lit "line", PStr [97; 10; 98; 233])])).
  { cbn. unfold is_code_point. repeat split; repeat constructor;
      cbn; intros; discriminate. }
  split; [exact H|]. split; [reflexivity|].
  exact (json_dumps_printable true _ _ H eq_refl).
Defined.

(* ===================================================================== *)
(** ** More on the NDJSON stream formatter *)
(* ===================================================================== *)

Lemma lines_printable (events : list pyval) (lines : list (list Z)) :
  Forall2 (fun event line => json_dumps true event = JOk line) events lines ->
  Forall strs_ok events -> Forall (Forall printable) lines.
Proof.
  induction 1 as [|event line events lines He _ IH]; [constructor|].
  intros Hok. inversion Hok; subst. constructor; [|now apply IH].
  now apply (json_dumps_printable_all true event).
Qed.

(** X12. When the iterator ends after events that all serialize, the
    formatter yields one string per event, in order, and no error line;
    each string is a line of printable ASCII followed by a newline, so
    its only newline is its last character. *)
Theorem format_as_ndjson_framing (events : list pyval)
    (lines : list (list Z)) :
  Forall2 (fun event line => json_dumps true event = JOk line) events lines ->
  Forall strs_ok events ->
  format_as_ndjson (yields events AEnd)
  = mkGenerated (map (fun line => line ++ [10]) lines) None /\
  List.length lines = List.length events /\
  Forall (fun line => Forall printable line /\ ~ In 10 line) lines.
Proof.
  intros H Hok. split; [now apply format_as_ndjson_end|]. split.
  - symmetry. eapply Forall2_length. exact H.
  - eapply Forall_impl; [|exact (lines_printable _ _ H Hok)].
    intros line Hl. split; [exact Hl|]. intros Hin.
    rewrite Forall_forall in Hl. specialize (Hl 10 Hin).
    unfold printable in Hl. lia.
Qed.

Lemma format_as_ndjson_framing_witness :
  Forall2 (fun event line => json_dumps true event = JOk line)
    [PDict [(lit "a", PInt 1)]; PData (lit "Delta") [(lit "x", PNone)]]
    [[123; 34; 97; 34; 58; 32; 49; 125];
     [123; 34; 120; 34; 58; 32] ++ lit "null" ++ [125]] /\
  format_as_ndjson
    (yields [PDict [(lit "a", PInt 1)];
             PData (lit "Delta") [(lit "x", PNone)]] AEnd)
  = mkGenerated
      [[123; 34; 97; 34; 58; 32; 49; 125; 10];
       [123; 34; 120; 34; 58; 32] ++ lit "null" ++ [125; 10]] None.
Proof.
  assert (H : Forall2 (fun event line => json_dumps true event = JOk line)
                [PDict [(lit "a", PInt 1)];
                 PData (lit "Delta") [(lit "x", PNone)]]
                [[123; 34; 97; 34; 58; 32; 49; 125];
                 [123; 34; 120; 34; 58; 32] ++ lit "null" ++ [125]]).
  { repeat constructor. }
  split; [exact H|].
  refine (proj1 (format_as_ndjson_framing _ _ H _)).
  repeat constructor; unfold is_code_point; cbn; intros; discriminate.
Defined.

(* ===================================================================== *)
(** ** The directory lookup *)
(* ===================================================================== *)

(** X13. [fetchUserGroups] returns the groups of the pages in the order the
    service links them, the current page first, up to the first request
    that fails: a request that raises, a status other than 200 or a body
    that is no JSON ends the reading, and the groups read before it are
    returned.  [n] nested calls are enough. *)
Theorem fetchUserGroups_pages
    (requests_get : pyval -> list Z -> http_response) (userToken : list Z)
    (n : nat) (nextLink : pyval) (groups : list pyval) :
  directory requests_get userToken n nextLink groups ->
  forall depth, (n <= depth)%nat ->
  fetchUserGroups requests_get depth userToken nextLink
  = Some (PList groups).
Proof.
  induction 1 as [nextLink Hf
                 | nextLink r groups Hr Hc Hv
                 | nextLink r link groups later n Hr Hc Hl Hv _ IH];
    intros [|depth] Hd; try lia; cbn [fetchUserGroups].
  - destruct Hf as [-> | (status & json & -> & Hbad)]; [reflexivity|].
    destruct (Z.eqb_spec status 200) as [->|Hs]; [|reflexivity].
    destruct Hbad as [Hbad | [e ->]]; [congruence | reflexivity].
  - rewrite Hr, Hc, Hv. reflexivity.
  - rewrite Hr, Hc, Hl. cbn [Z.eqb Pos.eqb negb].
    rewrite (IH depth ltac:(lia)), Hv. reflexivity.
Qed.

Lemma fetchUserGroups_pages_witness :
  directory example_directory (lit "token") 2 PNone
    [PDict [(lit "id", PStr (lit "g1"))];
     PDict [(lit "id", PStr (lit "g2"))]] /\
  fetchUserGroups example_directory 5 (lit "token") PNone
  = Some (PList [PDict [(lit "id", PStr (lit "g1"))];
                 PDict [(lit "id", PStr (lit "g2"))]]).
Proof.
  assert (H : directory example_directory (lit "token") 2 PNone
                ([PDict [(lit "id", PStr (lit "g1"))]]
                 ++ [PDict [(lit "id", PStr (lit "g2"))]])).
  { eapply dir_next with (link := PStr example_next_link);
      try reflexivity.
    eapply dir_last; reflexivity. }
  split; [exact H|].
  apply (fetchUserGroups_pages example_directory (lit "token") 2 PNone _ H).
  lia.
Defined.

(** X14. A page that has a link but no list under ["value"] is answered with
    no groups at all: the pages behind the link are requested, and what
    they hold is lost with the page. *)
Theorem fetchUserGroups_page_without_value
    (requests_get : pyval -> list Z -> http_response) (userToken : list Z)
    (depth : nat) (nextLink r link later : pyval) :
  requests_get (if truthy nextLink then nextLink else PStr GRAPH_MEMBER_OF)
    (lit "bearer " ++ userToken) = HttpResponse 200 (Ok r) ->
  py_contains (lit "@odata.nextLink") r = Ok true ->
  py_getitem r (lit "@odata.nextLink") = Ok link ->
  fetchUserGroups requests_get depth userToken link = Some later ->
  (forall l, py_getitem r (lit "value") <> Ok (PList l)) ->
  fetchUserGroups requests_get (S depth) userToken nextLink
  = Some (PList []).
Proof.
  intros Hr Hc Hl Hlater Hv. cbn [fetchUserGroups].
  rewrite Hr, Hc, Hl, Hlater. cbn [Z.eqb Pos.eqb negb].
  destruct (py_getitem r (lit "value")) as [value|e]; [|reflexivity].
  destruct value; try reflexivity. now destruct (Hv l).
Qed.

Lemma fetchUserGroups_page_without_value_witness :
  fetchUserGroups
    (fun endpoint authorization =>
       if py_eq_str endpoint GRAPH_MEMBER_OF
       then HttpResponse 200
              (Ok (PDict [(lit "@odata.nextLink", PStr example_next_link)]))
       else example_directory endpoint authorization)
    3 (lit "token") PNone
  = Some (PList []).
Proof.
  apply (fetchUserGroups_page_without_value _ (lit "token") 2 PNone
           (PDict [(lit "@odata.nextLink", PStr example_next_link)])
           (PStr example_next_link)
           (PList [PDict [(lit "id", PStr (lit "g2"))]]));
    try reflexivity.
  intros l. discriminate.
Defined.

(* ===================================================================== *)
(** ** More on the promptflow formatter *)
(* ===================================================================== *)

(** X15. A completion that carries an ["error"] key is answered with that
    error alone, whatever else it holds. *)
Theorem pf_error_passthrough (d : list (list Z * pyval)) (error hm : pyval)
    (response_field_name citations_field_name : list Z) (uuid : pyval) :
  dict_get d (lit "error") = Some error ->
  format_pf_non_streaming_response (PDict d) hm response_field_name
    citations_field_name uuid
  = Ok (PDict [(lit "error", error)]).
Proof.
  intros H. unfold format_pf_non_streaming_response.
  cbn [py_contains py_getitem bind]. unfold dict_has. rewrite H. reflexivity.
Qed.

Lemma pf_error_passthrough_witness :
  dict_get [(lit "id", PInt 1); (lit "error", PStr (lit "quota"))]
    (lit "error") = Some (PStr (lit "quota")) /\
  format_pf_non_streaming_response
    (PDict [(lit "id", PInt 1); (lit "error", PStr (lit "quota"))])
    PNone (lit "answer") (lit "citations") PNone
  = Ok (PDict [(lit "error", PStr (lit "quota"))]).
Proof.
  split; [reflexivity|].
  exact (pf_error_passthrough
           [(lit "id", PInt 1); (lit "error", PStr (lit "quota"))]
           (PStr (lit "quota")) PNone (lit "answer") (lit "citations") PNone
           eq_refl).
Defined.

(** X16. Without an error key, a completion with an id, a text under the
    response field and JSON citations under the citations field gives the
    envelope with the assistant message first and the tool message second;
    the tool content is the serialization of [{"citations": <text>}], the
    text being the decoded serialization of the citations. *)
Theorem pf_response_messages (d : list (list Z * pyval)) (id hm : pyval)
    (response_field_name citations_field_name : list Z) (uuid : pyval)
    (answer : list Z) (citations : pyval) (serialized : list Z) :
  dict_get d (lit "error") = None ->
  dict_get d (lit "id") = Some id ->
  dict_get d response_field_name = Some (PStr answer) ->
  dict_get d citations_field_name = Some citations ->
  json_dumps false citations = JOk serialized ->
  format_pf_non_streaming_response (PDict d) hm response_field_name
    citations_field_name uuid
  = Ok (pf_envelope id hm
          [assistant_message (unquote answer);
           tool_message
             ([123] ++ encode_basestring_ascii (lit "citations") ++ [58; 32]
              ++ encode_basestring_ascii (unquote serialized) ++ [125])]).
Proof.
  intros He Hi Hr Hc Hj. unfold format_pf_non_streaming_response.
  cbn [py_contains bind]. unfold dict_has at 1. rewrite He.
  unfold format_pf_try. cbn [py_contains py_getitem bind].
  unfold dict_has. rewrite Hr, Hc, Hi. cbn [bind decode_text_from_ai_search].
  unfold dumps at 1. rewrite Hj. cbn [bind decode_text_from_ai_search].
  reflexivity.
Qed.

Lemma pf_response_messages_witness :
  format_pf_non_streaming_response
    (PDict [(lit "id", PInt 3); (lit "answer", PStr (lit "x%20y"));
            (lit "docs", PList [PStr (lit "a%2Fb")])])
    PNone (lit "answer") (lit "docs") PNone
  = Ok (pf_envelope (PInt 3) PNone
          [assistant_message (lit "x y");
           tool_message
             ([123; 34] ++ lit "citations" ++ [34; 58; 32; 34; 91; 92; 34]
              ++ lit "a/b" ++ [92; 34; 93; 34; 125])]).
Proof.
  exact (pf_response_messages
           [(lit "id", PInt 3); (lit "answer", PStr (lit "x%20y"));
            (lit "docs", PList [PStr (lit "a%2Fb")])]
           (PInt 3) PNone (lit "answer") (lit "docs") PNone
           (lit "x%20y") (PList [PStr (lit "a%2Fb")])
           ([91; 34] ++ lit "a%2Fb" ++ [34; 93])
           eq_refl eq_refl eq_refl eq_refl eq_refl).
Defined.

(** X17. Without an error key, a completion that has no ["id"], or whose
    response field holds something that is not text, is answered with
    the empty object: the exception is caught, nothing is raised. *)
Theorem pf_failure_empty (d : list (list Z * pyval)) (hm : pyval)
    (response_field_name citations_field_name : list Z) (uuid : pyval) :
  dict_get d (lit "error") = None ->
  dict_get d (lit "id") = None \/
  (exists v, dict_get d response_field_name = Some v /\
             forall s, v <> PStr s) ->
  format_pf_non_streaming_response (PDict d) hm response_field_name
    citations_field_name uuid
  = Ok (PDict []).
Proof.
  intros He H. unfold format_pf_non_streaming_response.
  cbn [py_contains bind]. unfold dict_has at 1. rewrite He.
  assert (E : exists e, format_pf_try (PDict d) hm response_field_name
                          citations_field_name = Raise e);
    [|destruct E as [e ->]; reflexivity].
  unfold format_pf_try. cbn [py_contains py_getitem bind].
  destruct H as [Hi | (v & Hv & Hn)].
  - rewrite Hi.
    repeat match goal with
    | |- exists e, bind ?x _ = Raise e =>
        destruct x; cbn [bind]; [|eexists; reflexivity]
    end.
    eexists; reflexivity.
  - unfold dict_has at 1. rewrite Hv. cbn [bind].
    destruct (decode_non_text_raises v Hn) as [e ->].
    eexists; reflexivity.
Qed.

Lemma pf_failure_empty_witness :
  dict_get [(lit "answer", PStr (lit "hi"))] (lit "error") = None /\
  format_pf_non_streaming_response (PDict [(lit "answer", PStr (lit "hi"))])
    PNone (lit "answer") (lit "citations") PNone
  = Ok (PDict []).
Proof.
  split; [reflexivity|].
  apply (pf_failure_empty [(lit "answer", PStr (lit "hi"))]);
    [reflexivity | left; reflexivity].
Defined.

(* ===================================================================== *)
(** ** More on the promptflow input adapter and the group filter *)
(* ===================================================================== *)

(** X18. The first malformed message decides: when the messages before it
    make a history and it has no role, or is a user message whose content
    is missing or is refused by the encoder, [convert_to_pf_format]
    raises that exception; the turns built so far are not returned and
    the messages after it do not matter. *)
Theorem convert_to_pf_format_malformed (input_json : pyval)
    (request_field_name response_field_name : list Z)
    (before after : list pyval) (turns : list (list Z * list Z))
    (m : pyval) (e : exn) :
  py_getitem input_json (lit "messages") = Ok (PList (before ++ m :: after)) ->
  pf_history before turns ->
  truthy m = true ->
  py_getitem m (lit "role") = Raise e \/
  (exists role,
      py_getitem m (lit "role") = Ok role /\
      py_eq_str role (lit "user") = true /\
      (py_getitem m (lit "content") = Raise e \/
       exists content,
         py_getitem m (lit "content") = Ok content /\
         encode_text_for_ai_search content = Raise e)) ->
  convert_to_pf_format input_json request_field_name response_field_name
  = Raise e.
Proof.
  intros Hm Hb Ht H. unfold convert_to_pf_format. rewrite Hm.
  cbn [bind py_iter]. rewrite pf_loop_app.
  rewrite (pf_loop_sound request_field_name response_field_name _ _ Hb).
  cbn [bind pf_loop]. rewrite Ht.
  destruct H as [-> | (role & -> & Hu & [Hc | (content & Hc & He)])];
    [reflexivity | |]; cbn [bind]; rewrite Hu, Hc; [reflexivity|].
  cbn [bind]. now rewrite He.
Qed.

Lemma convert_to_pf_format_malformed_witness :
  pf_history example_history [(lit "hi", lit "yo")] /\
  convert_to_pf_format
    (PDict [(lit "messages",
             PList (example_history
                    ++ PDict [(lit "role", PStr (lit "user"));
                              (lit "content", PStr [0xD83D])]
                    :: example_history))])
    (lit "q") (lit "a")
  = Raise UnicodeEncodeError.
Proof.
  assert (H : pf_history example_history [(lit "hi", lit "yo")]).
  { apply (pf_assistant
             [PDict [(lit "role", PStr (lit "user"));
                     (lit "content", PStr (lit "hi"))]]
             [] (lit "hi") [] _ (PStr (lit "assistant")) (lit "yo"));
      try reflexivity.
    apply (pf_user [] [] _ (PStr (lit "user")) (lit "hi") (lit "hi"));
      try reflexivity.
    constructor. }
  split; [exact H|].
  apply (convert_to_pf_format_malformed _ (lit "q") (lit "a")
           example_history example_history [(lit "hi", lit "yo")]
           (PDict [(lit "role", PStr (lit "user"));
                   (lit "content", PStr [0xD83D])]));
    try reflexivity; [exact H|].
  right. exists (PStr (lit "user")). split; [reflexivity|].
  split; [reflexivity|]. right. exists (PStr [0xD83D]). split; reflexivity.
Defined.

Lemma map_res_app_raise {A B : Type} (f : A -> res B) (before after : list A)
    (ys : list B) (x : A) (e : exn) :
  map_res f before = Ok ys -> f x = Raise e ->
  map_res f (before ++ x :: after) = Raise e.
Proof.
  revert ys. induction before as [|b before IH]; intros ys.
  - intros _ Hx. cbn [app map_res]. now rewrite Hx.
  - cbn [app map_res]. destruct (f b) as [y|e']; [|discriminate].
    cbn [bind]. destruct (map_res f before) as [ys'|e']; [|discriminate].
    intros _ Hx. now rewrite (IH ys' eq_refl Hx).
Qed.

(** X20. A group without an ["id"], after groups that have one, makes
    [generateFilterString] raise (a [KeyError] for a dictionary): no
    filter is returned. *)
Theorem filter_string_group_without_id (column : option (list Z))
    (fetchUserGroups : list Z -> list pyval) (userToken : list Z)
    (before after : list pyval) (ids : list (list Z)) (g : pyval) (e : exn) :
  fetchUserGroups userToken = before ++ g :: after ->
  Forall2 (fun g gid => py_getitem g (lit "id") = Ok (PStr gid)) before ids ->
  py_getitem g (lit "id") = Raise e ->
  generateFilterString column fetchUserGroups userToken = Raise e.
Proof.
  intros Hg Hb He. unfold generateFilterString. rewrite Hg.
  rewrite (map_res_app_raise _ before after (map PStr ids) g e);
    [reflexivity | now apply group_ids_ok | exact He].
Qed.

Lemma filter_string_group_without_id_witness :
  generateFilterString (Some (lit "group_ids"))
    (fun _ => [PDict [(lit "id", PStr (lit "g1"))];
               PDict [(lit "displayName", PStr (lit "staff"))]])
    (lit "token")
  = Raise KeyError.
Proof.
  apply (filter_string_group_without_id (Some (lit "group_ids")) _
           (lit "token") [PDict [(lit "id", PStr (lit "g1"))]] []
           [lit "g1"] (PDict [(lit "displayName", PStr (lit "staff"))]));
    try reflexivity.
  repeat constructor.
Defined.

Lemma quote_code_points (s e : list Z) :
  Forall is_code_point s -> quote s = Ok e ->
  Forall (fun c => ALWAYS_SAFE c = true \/ c = 37) e.
Proof.
  intros Hs Hq.
  assert (Ht : is_text s).
  { unfold quote in Hq. destruct s as [|c0 s0]; [constructor|].
    destruct (utf8_encode (c0 :: s0)) as [bs|] eqn:E; [|discriminate].
    clear Hq. revert bs E. generalize (c0 :: s0) as l, Hs. clear.
    intros l Hl. induction Hl as [|c l Hc _ IH]; intros bs E; [constructor|].
    cbn [utf8_encode] in E.
    destruct (utf8_encode_char c) as [b1|] eqn:E1; [|discriminate].
    destruct (utf8_encode l) as [b2|]; [|discriminate].
    constructor; [|now apply (IH b2)].
    split; [exact Hc|].
    destruct (is_surrogate c) eqn:S; [|reflexivity].
    rewrite (utf8_encode_char_surrogate c S) in E1. discriminate. }
  destruct (quote_text s Ht) as (e' & E' & H'). congruence.
Qed.

Lemma strs_ok_dict_get (d : list (list Z * pyval)) (k : list Z) (v : pyval) :
  strs_ok (PDict d) -> dict_get d k = Some v -> strs_ok v.
Proof.
  cbn [strs_ok]. induction d as [|[k' x] d IH]; [discriminate|].
  intros (_ & Hx & Hd). cbn [dict_get].
  destruct (str_eqb k' k); [now intros [= <-] | now apply IH].
Qed.

Lemma strs_ok_getitem (m v : pyval) (k : list Z) :
  strs_ok m -> py_getitem m k = Ok v -> strs_ok v.
Proof.
  destruct m; try discriminate. cbn [py_getitem].
  destruct (dict_get d k) as [x|] eqn:E; [|discriminate].
  intros H [= <-]. now apply (strs_ok_dict_get d k).
Qed.

Lemma pf_history_inputs_safe (messages : list pyval)
    (turns : list (list Z * list Z)) :
  Forall strs_ok messages -> pf_history messages turns ->
  Forall (fun turn =>
            Forall (fun c => ALWAYS_SAFE c = true \/ c = 37) (fst turn))
    turns.
Proof.
  intros Hok H.
  induction H as [ | ms ts m _ IH Hm
                   | ms ts m role content encoded _ IH Hm Hr Hu Hc Hq
                   | ms ts input output m role content _ IH Hm Hr Ha Hc
                   | ms m role _ IH Hm Hr Ha
                   | ms ts m role _ IH Hm Hr Hu Ha ];
    try constructor;
    apply Forall_app in Hok as [Hms Hlast]; specialize (IH Hms);
    try exact IH.
  - apply Forall_app. split; [exact IH|]. constructor; [|constructor].
    cbn [fst]. inversion Hlast; subst.
    apply (quote_code_points content); [|exact Hq].
    exact (strs_ok_getitem m (PStr content) _ ltac:(assumption) Hc).
  - apply Forall_app in IH as [IH1 IH2]. apply Forall_app.
    split; [exact IH1|]. inversion IH2; subst.
    constructor; [assumption | constructor].
Qed.

(** X19. Whatever [convert_to_pf_format] returns for a list of messages is
    a list of turns [{"inputs": {request_field_name: input}, "outputs":
    {response_field_name: output}}] whose inputs are safe for ingestion:
    whatever the users wrote, every input holds only unreserved
    characters and ['%']. *)
Theorem convert_to_pf_format_inputs_safe (input_json : pyval)
    (request_field_name response_field_name : list Z)
    (messages : list pyval) (out : pyval) :
  py_getitem input_json (lit "messages") = Ok (PList messages) ->
  Forall strs_ok messages ->
  convert_to_pf_format input_json request_field_name response_field_name
  = Ok out ->
  exists turns,
    out = PList (map (fun turn =>
                        pf_turn request_field_name response_field_name
                          (fst turn) (snd turn)) turns) /\
    Forall (fun turn =>
              Forall (fun c => ALWAYS_SAFE c = true \/ c = 37) (fst turn))
      turns.
Proof.
  intros Hm Hok. unfold convert_to_pf_format. rewrite Hm.
  cbn [bind py_iter].
  destruct (pf_loop request_field_name response_field_name messages [])
    as [o|e] eqn:E; [|discriminate].
  cbn [bind]. intros [= <-].
  apply pf_loop_complete in E as (ts & Hts & ->).
  exists ts. split; [reflexivity|].
  exact (pf_history_inputs_safe messages ts Hok Hts).
Qed.

Lemma convert_to_pf_format_inputs_safe_witness :
  Forall strs_ok
    [PDict [(lit "role", PStr (lit "user"));
            (lit "content", PStr (lit "a/b c"))]] /\
  convert_to_pf_format
    (PDict [(lit "messages",
             PList [PDict [(lit "role", PStr (lit "user"));
                           (lit "content", PStr (lit "a/b c"))]])])
    (lit "q") (lit "a")
  = Ok (PList [pf_turn (lit "q") (lit "a") (lit "a%2Fb%20c") []]) /\
  exists turns,
    PList [pf_turn (lit "q") (lit "a") (lit "a%2Fb%20c") []]
    = PList (map (fun turn => pf_turn (lit "q") (lit "a") (fst turn) (snd turn))
               turns) /\
    Forall (fun turn =>
              Forall (fun c => ALWAYS_SAFE c = true \/ c = 37) (fst turn))
      turns.
Proof.
  assert (Hok : Forall strs_ok
                  [PDict [(lit "role", PStr (lit "user"));
                          (lit "content", PStr (lit "a/b c"))]]).
  { constructor; [|constructor]. cbn. unfold is_code_point.
    repeat split; repeat constructor; cbn; intros; discriminate. }
  split; [exact Hok|]. split; [reflexivity|].
  exact (convert_to_pf_format_inputs_safe
           (PDict [(lit "messages",
                    PList [PDict [(lit "role", PStr (lit "user"));
                                  (lit "content", PStr (lit "a/b c"))]])])
           (lit "q") (lit "a") _ _ eq_refl Hok eq_refl).
Defined.

(* ===================================================================== *)
(** ** The shape of what the native formatters return *)
(* ===================================================================== *)

(** X21. Whatever [format_non_streaming_response] returns is the empty object,
    exactly when there is no choice or no message, or the envelope with
    the fields of the completion, the history metadata and the request id
    as they were given, holding the assistant message alone or after one
    tool message. *)
Theorem non_streaming_shape (cc : ChatCompletion) (hm rid out : pyval) :
  format_non_streaming_response cc hm rid = Ok out ->
  (out = PDict [] /\
   (cc_choices cc = [] \/
    exists others, cc_choices cc = mkChoice None :: others)) \/
  (exists choice0 others m content,
      cc_choices cc = choice0 :: others /\ message choice0 = Some m /\
      msg_content m = PStr content /\
      ((msg_context m = None /\
        out = envelope (cc_id cc) (cc_model cc) (cc_created cc)
                (cc_object cc) [assistant_message (unquote content)] hm rid) \/
       (exists context serialized,
           msg_context m = Some context /\
           json_dumps false context = JOk serialized /\
           out = envelope (cc_id cc) (cc_model cc) (cc_created cc)
                   (cc_object cc)
                   [tool_message (unquote serialized);
                    assistant_message (unquote content)] hm rid))).
Proof.
  unfold format_non_streaming_response.
  destruct (cc_choices cc) as [|choice0 others] eqn:Ec.
  { intros [= <-]. left. split; [reflexivity | now left]. }
  destruct choice0 as [[m|]].
  2:{ intros [= <-]. left. split; [reflexivity|]. right. now exists others. }
  cbn [message]. unfold hasattr_context, getattr_context, dumps.
  destruct (msg_context m) as [context|] eqn:Ex.
  - cbv beta iota. unfold bind at 2 3.
    destruct (json_dumps false context) as [serialized|cls] eqn:Ej;
      [|discriminate].
    cbn [decode_text_from_ai_search bind].
    rewrite append_message_envelope. cbn [bind app].
    destruct (decode_text_from_ai_search (msg_content m)) as [d|e] eqn:Ed;
      [|discriminate].
    apply decode_ok_inv in Ed as (content & Hc & ->).
    cbn [bind]. rewrite append_message_envelope. cbn [bind app].
    intros [= <-]. right. exists (mkChoice (Some m)), others, m, content.
    repeat split; try assumption. right. exists context, serialized.
    now repeat split.
  - cbn [bind].
    destruct (decode_text_from_ai_search (msg_content m)) as [d|e] eqn:Ed;
      [|discriminate].
    apply decode_ok_inv in Ed as (content & Hc & ->).
    cbn [bind]. rewrite append_message_envelope. cbn [bind app].
    intros [= <-]. right. exists (mkChoice (Some m)), others, m, content.
    repeat split; try assumption. now left.
Qed.

Lemma non_streaming_shape_witness :
  format_non_streaming_response
    (mkChatCompletion PNone PNone PNone PNone [mkChoice None]) PNone PNone
  = Ok (PDict []) /\
  (cc_choices (mkChatCompletion PNone PNone PNone PNone [mkChoice None]) = [] \/
   exists others,
     cc_choices (mkChatCompletion PNone PNone PNone PNone [mkChoice None])
     = mkChoice None :: others).
Proof.
  split; [reflexivity|].
  destruct (non_streaming_shape
              (mkChatCompletion PNone PNone PNone PNone [mkChoice None])
              PNone PNone (PDict []) eq_refl)
    as [[_ H] | (choice0 & others & m & content & Hc & Hm & _)].
  - exact H.
  - injection Hc as <- _. discriminate Hm.
Defined.
